(** * AutoNews: the job pipeline, the summarizer adapter and the content fingerprint

    A shallow embedding of [server/routes.ts] ([processJob], [generateHash]),
    [server/services/video.ts] ([VideoService]), the summarizer adapter
    ([HuggingFaceNLP]) and the publisher ([YouTubeService.publishVideo]),
    with the properties of the pipeline proved over it.

    Layout: JavaScript values and strings; the fingerprint; [String.split] on
    whitespace; the adapters (call logs and results); the job store; the
    orchestrator; then the theorems. *)

From Stdlib Require Import ZArith List Bool Lia String Ascii Arith.
From Stdlib Require Import DecimalString HexadecimalString DecimalZ HexadecimalN.
From Equations Require Import Equations.
Import ListNotations.

Local Open Scope Z_scope.

(* ===================================================================== *)
(** ** JavaScript strings and numbers *)
(* ===================================================================== *)

Module Js.

(** A JavaScript string is a sequence of UTF-16 code units;
    [charCodeAt] reads one of them, a number in [0, 65535]. *)
Definition JsString := list Z.

Definition codeUnit (c : Z) : Prop := 0 <= c < 65536.
Definition wellFormed (s : JsString) : Prop := Forall codeUnit s.

(** String literals of the source, written with Rocq strings: the literals
    are ASCII, so every character is one code unit. *)
Fixpoint js (s : string) : JsString :=
  match s with
  | EmptyString => []
  | String c s' => Z.of_N (N_of_ascii c) :: js s'
  end.

Definition charCodeAt (s : JsString) (i : nat) : Z := nth i s 0.

(** [s.substring(0, n)] *)
Definition substring0 (n : nat) (s : JsString) : JsString := firstn n s.

Fixpoint eqb (a b : JsString) : bool :=
  match a, b with
  | [], [] => true
  | x :: a', y :: b' => (x =? y) && eqb a' b'
  | _, _ => false
  end.

(** Truthiness of a string value: the empty string is falsy. *)
Definition truthy (s : JsString) : bool :=
  match s with [] => false | _ :: _ => true end.

(** Truthiness of a property that may be absent ([undefined]) or a string. *)
Definition truthyField (f : option JsString) : bool :=
  match f with Some s => truthy s | None => false end.

(** The value of a property when it is truthy: [whenTruthy f = Some s]
    exactly when [if (f)] takes its branch, and [f || d] is [orElse f d]. *)
Definition whenTruthy (f : option JsString) : option JsString :=
  match f with
  | Some s => if truthy s then Some s else None
  | None => None
  end.

Definition orElse (f : option JsString) (d : JsString) : JsString :=
  match whenTruthy f with Some s => s | None => d end.

(** [ToInt32]: the value modulo 2^32, read as a signed 32-bit integer. *)
Definition toInt32 (x : Z) : Z := (x + 2 ^ 31) mod 2 ^ 32 - 2 ^ 31.

(** [a << n] on numbers: [ToInt32 a] shifted left by [n mod 32] bits,
    the result again a signed 32-bit integer. *)
Definition shl (a n : Z) : Z := toInt32 (Z.shiftl (toInt32 a) (n mod 32)).

(** [a & b] on numbers. *)
Definition band (a b : Z) : Z := toInt32 (Z.land (toInt32 a) (toInt32 b)).

(** [n.toString(16)] for an integer [n >= 0]: lower-case digits, no prefix,
    ["0"] for zero. *)
Definition toString16 (n : Z) : JsString :=
  js (NilZero.string_of_uint (N.to_hex_uint (Z.to_N n))).

(** Reading a base-16 numeral back. *)
Definition parseHex (s : string) : option Z :=
  match NilZero.uint_of_string s with
  | Some d => Some (Z.of_N (N.of_hex_uint d))
  | None => None
  end.

(** [String(n)] for an integer [n]: the decimal numeral. *)
Definition showInt (n : Z) : JsString :=
  js (DecimalString.NilZero.string_of_int (Z.to_int n)).

End Js.

Import Js.

(* ===================================================================== *)
(** ** The content fingerprint ([generateHash], routes.ts) *)
(* ===================================================================== *)

(** The body of the [for] loop at index [i]:
    [hash = ((hash << 5) - hash) + char; hash = hash & hash]. *)
Definition hashStep (content : JsString) (i : nat) (hash : Z) : Z :=
  let char := charCodeAt content i in
  let hash := (shl hash 5 - hash) + char in
  band hash hash.

(** [for (let i = 0; i < content.length; i++)] from index [i] with the
    accumulator at [hash], [todo = content.length - i] iterations being
    left. *)
Fixpoint hashLoop (content : JsString) (i : nat) (hash : Z) (todo : nat) : Z :=
  match todo with
  | O => hash
  | S todo' => hashLoop content (S i) (hashStep content i hash) todo'
  end.

Definition hashAccumulator (content : JsString) : Z :=
  hashLoop content 0%nat 0 (List.length content).

Definition generateHash (content : JsString) : JsString :=
  toString16 (Z.abs (hashAccumulator content)).

(** The fingerprint as the specification words it: a signed 32-bit
    accumulator, started at 0 and updated once per character, in order. *)
Definition specUpdate (hash char : Z) : Z :=
  toInt32 ((shl hash 5 - hash) + char).

Definition specAccumulator (content : JsString) : Z :=
  fold_left specUpdate content 0.

(* ===================================================================== *)
(** ** [summaryText.split(/\s+/)] *)
(* ===================================================================== *)

(** The class [\s] of a regular expression: white space and line
    terminators. *)
Definition isWhiteSpace (c : Z) : bool :=
  ((9 <=? c) && (c <=? 13))            (* \t \n \v \f \r *)
  || (c =? 32) || (c =? 160)           (* space, no-break space *)
  || (c =? 5760)                       (* U+1680 *)
  || ((8192 <=? c) && (c <=? 8202))    (* U+2000 .. U+200A *)
  || (c =? 8232) || (c =? 8233)        (* line and paragraph separators *)
  || (c =? 8239) || (c =? 8287)        (* U+202F, U+205F *)
  || (c =? 12288) || (c =? 65279).     (* U+3000, U+FEFF *)

(** Length of the longest run of white space at the head of [s]:
    what the greedy [\s+] consumes there. *)
Fixpoint whiteSpaceRun (s : JsString) : nat :=
  match s with
  | c :: s' => if isWhiteSpace c then S (whiteSpaceRun s') else O
  | [] => O
  end.

(** Matching [/\s+/] at exactly index [q] of [str] (the sticky match the split
    algorithm performs): the end index of the match, if there is one. *)
Definition matchAt (str : JsString) (q : nat) : option nat :=
  match whiteSpaceRun (skipn q str) with
  | O => None
  | n => Some (q + n)%nat
  end.

(** [str.substring(p, q)] for [p <= q]. *)
Definition slice (str : JsString) (p q : nat) : JsString :=
  firstn (q - p) (skipn p str).

Definition inspect {A : Type} (a : A) : {b : A | a = b} := exist _ a eq_refl.

(** The loop of [RegExp.prototype[Symbol.split]] with no limit and no capture
    group: [p] is the start of the piece being collected, [q] the index where
    a separator is looked for. *)
Equations? splitLoop (str : JsString) (p q : nat) : list JsString
  by wf (List.length str - q)%nat lt :=
  splitLoop str p q with lt_dec q (List.length str) := {
    | right _ => [slice str p (List.length str)]
    | left _ with inspect (matchAt str q) := {
        | exist _ None _ => splitLoop str p (q + 1)
        | exist _ (Some e) _ with Nat.eq_dec e p := {
            | left _ => splitLoop str p (q + 1)
            | right _ => slice str p q :: splitLoop str e e } } }.
Proof.
  all: try lia.
  (* a match of [\s+] at [q] ends after [q] *)
  match goal with H : matchAt _ _ = Some _ |- _ => unfold matchAt in H end.
  destruct (whiteSpaceRun (skipn q str)) eqn:E; [discriminate|].
  match goal with H : Some _ = Some _ |- _ => injection H as <- end.
  lia.
Qed.

(** [str.split(/\s+/)]: the empty string is a case of its own (the result is
    empty when the separator matches the empty string, and [[str]] otherwise). *)
Definition splitWhiteSpace (str : JsString) : list JsString :=
  match str with
  | [] => match matchAt str 0 with Some _ => [] | None => [str] end
  | _ :: _ => splitLoop str 0 0
  end.

(** The word count that [processJob] stores with a summary. *)
Definition wordCount (summaryText : JsString) : Z :=
  Z.of_nat (List.length (splitWhiteSpace summaryText)).

(* ===================================================================== *)
(** ** Data model (the rows of [@shared/schema] as the code fills them) *)
(* ===================================================================== *)

Inductive Status : Type := Pending | Running | Completed | Failed.

Definition Status_eqb (a b : Status) : bool :=
  match a, b with
  | Pending, Pending | Running, Running
  | Completed, Completed | Failed, Failed => true
  | _, _ => false
  end.

Definition terminal (s : Status) : bool :=
  match s with Completed | Failed => true | _ => false end.

Module Job.
Record t : Type := mk {
  id : JsString;
  topic : JsString;
  language : JsString;
  targetLength : Z;
  autoPublish : bool;
  status : Status;
  progress : Z;
  error : option JsString
}.
End Job.

(** One element of the list [gnewsService.fetchArticles] resolves to. *)
Module GNewsArticle.
Record t : Type := mk {
  url : JsString;
  title : JsString;
  description : JsString;
  image : option JsString;
  publishedAt : JsString
}.
End GNewsArticle.

Module Article.
Record t : Type := mk {
  jobId : JsString;
  source : JsString;
  url : JsString;
  title : JsString;
  content : JsString;
  contentHash : JsString;
  mediaUrl : option JsString;
  publishedAt : JsString
}.
End Article.

Module Summary.
Record t : Type := mk {
  jobId : JsString;
  text : JsString;
  wordCount : Z;
  language : JsString
}.
End Summary.

Module Audio.
Record t : Type := mk {
  jobId : JsString;
  url : JsString;
  duration : Z;
  sampleRate : Z;
  format : JsString;
  size : Z
}.
End Audio.

Module Video.
Record t : Type := mk {
  jobId : JsString;
  urlMp4 : JsString;
  urlSrt : option JsString;
  urlThumb : JsString;
  width : Z;
  height : Z;
  duration : Z;
  size : Z
}.
End Video.

(** What [publishVideo] resolves to (the timestamp left out). *)
Module Publication.
Record t : Type := mk {
  videoId : JsString;
  url : JsString
}.
End Publication.

(* ===================================================================== *)
(** ** Thrown values, results, the call log *)
(* ===================================================================== *)

(** What a [throw] or a rejected promise carries: an [Error] object with
    its [name] and [message], or any other value ([shown] is [String(v)]). *)
Inductive Thrown : Type :=
| ErrorObject (name message : JsString)
| OtherValue (shown : JsString).

(** [new Error(message)] *)
Definition newError (message : JsString) : Thrown :=
  ErrorObject (js "Error") message.

(** The rejection of a [fetch] whose [AbortController] fired. *)
Definition abortError : Thrown :=
  ErrorObject (js "AbortError") (js "This operation was aborted").

(** [error instanceof Error && error.name === 'AbortError'] *)
Definition isAbortError (error : Thrown) : bool :=
  match error with
  | ErrorObject name _ => Js.eqb name (js "AbortError")
  | OtherValue _ => false
  end.

(** [error instanceof Error ? error.message : "Unknown error"] *)
Definition messageOrUnknown (error : Thrown) : JsString :=
  match error with
  | ErrorObject _ message => message
  | OtherValue _ => js "Unknown error"
  end.

(** [error instanceof Error ? error : new Error(String(error))] *)
Definition asError (error : Thrown) : Thrown :=
  match error with
  | ErrorObject _ _ => error
  | OtherValue shown => newError shown
  end.

Inductive Result (A : Type) : Type :=
| Ok (a : A)
| Throw (e : Thrown).
Arguments Ok {A} a.
Arguments Throw {A} e.

(** The request [renderVideo] posts. *)
Module VideoRenderRequest.
Record t : Type := mk {
  summary : JsString;
  audioUrl : JsString;
  duration : Z;
  images : list JsString;
  title : JsString
}.
End VideoRenderRequest.

(** A write the job store has accepted. *)
Inductive StoreWrite : Type :=
| WJobStatus (jobId : JsString) (status : Status)
             (error : option JsString) (progress : option Z)
| WArticle (a : Article.t)
| WSummary (s : Summary.t)
| WAudio (a : Audio.t)
| WVideo (v : Video.t).

(** What a run does to the outside world, in the order it does it. *)
Inductive Event : Type :=
| EvFetchArticles (topic language : JsString)
| EvSummarizerRequest (attempt : nat) (timeout : Z)
                      (inputs : JsString) (max_length : Z)
| EvSleep (ms : Z)
| EvHealthRequest (timeout : Z)
| EvTtsRequest (text language : JsString) (timeout : Z)
| EvRenderRequest (request : VideoRenderRequest.t) (timeout : Z)
| EvUpload (videoUrl title : JsString)
| EvStore (w : StoreWrite).

(* ===================================================================== *)
(** ** Two small monads: adapter calls and the orchestrator *)
(* ===================================================================== *)

Class Monad (m : Type -> Type) : Type := {
  ret : forall {A : Type}, A -> m A;
  bind : forall {A B : Type}, m A -> (A -> m B) -> m B;
  throw : forall {A : Type}, Thrown -> m A;
  tryCatch : forall {A : Type}, m A -> (Thrown -> m A) -> m A
}.

Declare Scope pipeline_scope.
Delimit Scope pipeline_scope with pipeline.
Notation "x <- c1 ;; c2" := (bind c1 (fun x => c2))
  (at level 61, c1 at next level, right associativity) : pipeline_scope.
Notation "c1 ;; c2" := (bind c1 (fun _ => c2))
  (at level 61, right associativity) : pipeline_scope.
Local Open Scope pipeline_scope.

(** An adapter keeps no state of its own: a call is its result together
    with the requests it made and the pauses it took. *)
Definition IO (A : Type) : Type := (Result A * list Event)%type.

#[global] Instance Monad_IO : Monad IO := {
  ret A a := (Ok a, []);
  bind A B c f :=
    match c with
    | (Ok a, log) => let (r, log') := f a in (r, log ++ log')
    | (Throw e, log) => (Throw e, log)
    end;
  throw A e := (Throw e, []);
  tryCatch A c handler :=
    match c with
    | (Ok a, log) => (Ok a, log)
    | (Throw e, log) => let (r, log') := handler e in (r, log ++ log')
    end
}.

Definition emit (e : Event) : IO unit := (Ok tt, [e]).

(** [await this.sleep(ms)] *)
Definition sleep (ms : Z) : IO unit := emit (EvSleep ms).

(* ===================================================================== *)
(** ** The remote services as the adapters see them *)
(* ===================================================================== *)

(** A [Response]: its status, its body as text ([response.text()], taken to
    resolve once the response is there) and what [response.json()] resolves
    to (it rejects on a body that is not JSON). *)
Module Response.
Record t (J : Type) : Type := mk {
  status : Z;
  text : JsString;
  json : Result J
}.
Arguments mk {J}.
Arguments status {J}.
Arguments text {J}.
Arguments json {J}.

(** [response.ok]: a status in the range 200-299. *)
Definition ok {J : Type} (r : t J) : bool :=
  (200 <=? status r) && (status r <=? 299).
End Response.

(** What [await fetch(...)] does: it rejects (the abort of a timed-out
    request included) or resolves to a response. *)
Inductive FetchOutcome (J : Type) : Type :=
| Rejected (e : Thrown)
| Responded (r : Response.t J).
Arguments Rejected {J} e.
Arguments Responded {J} r.

(** The JSON of the summarization model, by what [summarize] reads of it:
    [result.error], [Array.isArray(result)], [result[0]?.summary_text] and
    [result.summary_text]; a property that is absent is [None]. *)
Inductive HfJson : Type :=
| HfNull                                        (* reading a property throws *)
| HfArray (first_summary_text : option JsString)
| HfObject (error summary_text : option JsString).

Module TtsJson.
Record t : Type := mk {
  audio_url : JsString;
  duration : Z;
  format : option JsString
}.
End TtsJson.

Module RenderJson.
Record t : Type := mk {
  urlMp4 : option JsString;
  urlSrt : option JsString;
  urlThumb : JsString;
  width : Z;
  height : Z;
  duration : Z;
  size : Z
}.
End RenderJson.

(** What the two methods of [VideoService] resolve to. *)
Module TtsResult.
Record t : Type := mk {
  audioUrl : JsString;
  duration : Z;
  format : JsString
}.
End TtsResult.

Module VideoRenderResult.
Record t : Type := mk {
  urlMp4 : JsString;
  urlSrt : option JsString;
  urlThumb : JsString;
  width : Z;
  height : Z;
  duration : Z;
  size : Z
}.
End VideoRenderResult.

(** Everything a run depends on and does not control: the configuration,
    the answers of the remote services and of the news source (whose
    adapter, [services/gnews], is outside this development), and whether
    the job store accepts its [n]-th call ([None]) or rejects it. *)
Module Env.
Record t : Type := mk {
  apiKey : JsString;
  fetchArticles : Result (list GNewsArticle.t);
  summarizerFetch : nat -> FetchOutcome HfJson;
  ttsFetch : FetchOutcome TtsJson.t;
  renderFetch : FetchOutcome RenderJson.t;
  uploadVideo : Result JsString;
  storeFault : nat -> option Thrown
}.
End Env.

(** [await fetch(...)], then [await response.json()]. *)
Definition awaitFetch {J : Type} (o : FetchOutcome J) : IO (Response.t J) :=
  match o with
  | Rejected e => throw e
  | Responded r => ret r
  end.

Definition awaitResult {A : Type} (r : Result A) : IO A :=
  match r with
  | Ok a => ret a
  | Throw e => throw e
  end.

(** The error of reading a property of [null]. *)
Definition typeError (property : string) : Thrown :=
  ErrorObject (js "TypeError")
    (js "Cannot read properties of null (reading '" ++ js property ++ js "')").

Section Adapters.

Variable env : Env.t.

(* ------------------------------------------------------------------- *)
(** *** [VideoService] *)

(** [generateTTS(text, language)]: the [catch] logs and rethrows. *)
Definition generateTTS (text language : JsString) : IO TtsResult.t :=
  tryCatch
    (emit (EvTtsRequest text language 60000) ;;
     response <- awaitFetch (Env.ttsFetch env) ;;
     if negb (Response.ok response) then
       let errorText := Response.text response in
       throw (newError (js "TTS service error: "
                        ++ showInt (Response.status response)
                        ++ js " - " ++ errorText))
     else
       result <- awaitResult (Response.json response) ;;
       ret {| TtsResult.audioUrl := TtsJson.audio_url result;
              TtsResult.duration := TtsJson.duration result;
              TtsResult.format := orElse (TtsJson.format result) (js "mp3") |})
    (fun error => throw error).

(** [renderVideo(request)]: a response without [urlMp4] is an error. *)
Definition renderVideo (request : VideoRenderRequest.t)
  : IO VideoRenderResult.t :=
  tryCatch
    (emit (EvRenderRequest request 120000) ;;
     response <- awaitFetch (Env.renderFetch env) ;;
     if negb (Response.ok response) then
       let errorText := Response.text response in
       throw (newError (js "Video service error: "
                        ++ showInt (Response.status response)
                        ++ js " - " ++ errorText))
     else
       result <- awaitResult (Response.json response) ;;
       match whenTruthy (RenderJson.urlMp4 result) with
       | None => throw (newError (js "Video service did not return urlMp4"))
       | Some urlMp4 =>
           ret {| VideoRenderResult.urlMp4 := urlMp4;
                  VideoRenderResult.urlSrt := whenTruthy (RenderJson.urlSrt result);
                  VideoRenderResult.urlThumb := RenderJson.urlThumb result;
                  VideoRenderResult.width := RenderJson.width result;
                  VideoRenderResult.height := RenderJson.height result;
                  VideoRenderResult.duration := RenderJson.duration result;
                  VideoRenderResult.size := RenderJson.size result |}
       end)
    (fun error => throw error).

(* ------------------------------------------------------------------- *)
(** *** [HuggingFaceNLP.summarize] *)

Definition maxRetries : nat := 5.
Definition initialTimeout : Z := 30000.

(** How one pass through the body of the [for] loop ends when it does not
    throw: with [return] or with the next iteration. *)
Inductive Control : Type :=
| Return (summary_text : JsString)
| Continue.

(** The [try] block of attempt number [attempt]. *)
Definition attemptTry (text : JsString) (maxLength : Z) (attempt : nat)
  : IO Control :=
  let timeout := initialTimeout * Z.of_nat attempt in
  emit (EvSummarizerRequest attempt timeout text maxLength) ;;
  response <- awaitFetch (Env.summarizerFetch env attempt) ;;
  if negb (Response.ok response) then
    let error := Response.text response in
    if (Response.status response =? 504) && (attempt <? maxRetries)%nat then
      sleep (2000 * Z.of_nat attempt) ;;
      ret Continue
    else
      throw (newError (js "Hugging Face API error: "
                       ++ showInt (Response.status response)
                       ++ js " - " ++ substring0 200 error))
  else
    result <- awaitResult (Response.json response) ;;
    match result with
    | HfNull => throw (typeError "error")
    | HfArray first =>
        match whenTruthy first with
        | Some summary_text => ret (Return summary_text)
        | None => throw (newError (js "Unexpected response format"))
        end
    | HfObject error summary_text =>
        match whenTruthy error with
        | Some e => throw (newError (js "Summarization error: " ++ e))
        | None =>
            match whenTruthy summary_text with
            | Some s => ret (Return s)
            | None => throw (newError (js "Unexpected response format"))
            end
        end
    end.

(** The [catch] block of attempt [attempt], after [lastError] is set:
    a pause and the next attempt for an abort, the error for the last
    attempt, and otherwise the end of the block, hence the next attempt. *)
Definition attemptCatch (attempt : nat) (error : Thrown) : IO Control :=
  let lastError := asError error in
  if isAbortError error && (attempt <? maxRetries)%nat then
    sleep (2000 * Z.of_nat attempt) ;;
    ret Continue
  else if (attempt =? maxRetries)%nat then
    throw lastError
  else
    ret Continue.

(** One pass through the loop body; it also yields the [lastError] the
    next pass starts with. *)
Definition attemptBody (text : JsString) (maxLength : Z)
           (attempt : nat) (lastError : option Thrown)
  : IO (Control * option Thrown) :=
  tryCatch
    (c <- attemptTry text maxLength attempt ;; ret (c, lastError))
    (fun error =>
       c <- attemptCatch attempt error ;; ret (c, Some (asError error))).

(** [for (let attempt = 1; attempt <= this.maxRetries; attempt++)], run
    from [attempt] with [remaining = maxRetries + 1 - attempt] passes
    left; after the loop comes the final [throw]. *)
Fixpoint summarizeLoop (text : JsString) (maxLength : Z)
         (remaining attempt : nat) (lastError : option Thrown)
  : IO JsString :=
  match remaining with
  | O =>
      throw (match lastError with
             | Some e => e
             | None => newError (js "Failed to generate summary after retries")
             end)
  | S remaining' =>
      step <- attemptBody text maxLength attempt lastError ;;
      match step with
      | (Return s, _) => ret s
      | (Continue, lastError') =>
          summarizeLoop text maxLength remaining' (S attempt) lastError'
      end
  end.

Definition summarize (text : JsString) (maxLength : Z) : IO JsString :=
  if negb (truthy (Env.apiKey env)) then
    throw (newError (js "HUGGINGFACE_API_KEY not configured"))
  else
    summarizeLoop text maxLength maxRetries 1 None.

(* ------------------------------------------------------------------- *)
(** *** [YouTubeService.publishVideo] *)

(** [uploadVideo] downloads the file and hands it to the YouTube API; it
    resolves to the video identifier or rejects. *)
Definition uploadVideo (videoUrl title : JsString) : IO JsString :=
  emit (EvUpload videoUrl title) ;;
  awaitResult (Env.uploadVideo env).

Definition publishVideo (job : Job.t) (video : Video.t) : IO Publication.t :=
  let videoUrl := Video.urlMp4 video in
  let title := Job.topic job ++ js " - AutoNews Summary" in
  videoId <- uploadVideo videoUrl title ;;
  ret {| Publication.videoId := videoId;
         Publication.url := js "https://www.youtube.com/watch?v=" ++ videoId |}.

(** [gnewsService.fetchArticles(topic, language)] *)
Definition fetchArticles (topic language : JsString)
  : IO (list GNewsArticle.t) :=
  emit (EvFetchArticles topic language) ;;
  awaitResult (Env.fetchArticles env).

End Adapters.

(* ===================================================================== *)
(** ** [HuggingFaceNLP.checkHealth] and its cache *)
(* ===================================================================== *)

(** The two private fields behind the health check. *)
Module HealthCache.
Record t : Type := mk {
  lastHealthCheck : bool;
  lastHealthCheckTime : Z
}.
(** The values the fields are declared with. *)
Definition initial : t :=
  {| lastHealthCheck := true; lastHealthCheckTime := 0 |}.
End HealthCache.

Definition healthCheckCacheDuration : Z := 60000.

(** One call of [checkHealth()] at [Date.now() = now], started after the
    previous call has returned; [remote] is what the request would do.  The
    result is the boolean, the fields after the call, and the requests
    made. *)
Definition checkHealth (env : Env.t) (now : Z) (remote : FetchOutcome HfJson)
           (cache : HealthCache.t) : bool * HealthCache.t * list Event :=
  if negb (truthy (Env.apiKey env)) then (false, cache, [])
  else if now - HealthCache.lastHealthCheckTime cache <? healthCheckCacheDuration
  then (HealthCache.lastHealthCheck cache, cache, [])
  else
    match remote with
    | Responded response =>
        (Response.ok response,
         {| HealthCache.lastHealthCheck := Response.ok response;
            HealthCache.lastHealthCheckTime := now |},
         [EvHealthRequest 15000])
    | Rejected error =>
        if isAbortError error && HealthCache.lastHealthCheck cache
        then (HealthCache.lastHealthCheck cache, cache, [EvHealthRequest 15000])
        else (false,
              {| HealthCache.lastHealthCheck := false;
                 HealthCache.lastHealthCheckTime := now |},
              [EvHealthRequest 15000])
    end.

(** Number of remote requests in a log. *)
Definition healthRequests (log : list Event) : nat :=
  List.length (filter (fun e => match e with EvHealthRequest _ => true | _ => false end) log).

(* ===================================================================== *)
(** ** The job store *)
(* ===================================================================== *)

(** Modelled from the spec: the module [./storage] is not part of the
    sources at hand.  The store keeps one table per entity;
    [updateStatus(id, status, error?, progress?)] rewrites the status and the
    error of the job with that identifier, and its progress when one is
    given; [get(id)] finds the job; every [create<Artifact>] appends a row
    and returns it. *)
Module Store.
Record t : Type := mk {
  jobs : list Job.t;
  articles : list Article.t;
  summaries : list Summary.t;
  audios : list Audio.t;
  videos : list Video.t
}.

Definition setStatus (status : Status) (error : option JsString)
           (progress : option Z) (j : Job.t) : Job.t :=
  {| Job.id := Job.id j;
     Job.topic := Job.topic j;
     Job.language := Job.language j;
     Job.targetLength := Job.targetLength j;
     Job.autoPublish := Job.autoPublish j;
     Job.status := status;
     Job.progress := match progress with
                     | Some p => p
                     | None => Job.progress j
                     end;
     Job.error := error |}.

Definition updateJobStatus (jobId : JsString) (status : Status)
           (error : option JsString) (progress : option Z) (s : t) : t :=
  {| jobs := map (fun j => if Js.eqb (Job.id j) jobId
                           then setStatus status error progress j else j)
                 (jobs s);
     articles := articles s;
     summaries := summaries s;
     audios := audios s;
     videos := videos s |}.

Definition getJobById (jobId : JsString) (s : t) : option Job.t :=
  find (fun j => Js.eqb (Job.id j) jobId) (jobs s).

Definition createArticle (a : Article.t) (s : t) : t :=
  {| jobs := jobs s; articles := articles s ++ [a];
     summaries := summaries s; audios := audios s; videos := videos s |}.

Definition createSummary (x : Summary.t) (s : t) : t :=
  {| jobs := jobs s; articles := articles s;
     summaries := summaries s ++ [x]; audios := audios s; videos := videos s |}.

Definition createAudio (a : Audio.t) (s : t) : t :=
  {| jobs := jobs s; articles := articles s;
     summaries := summaries s; audios := audios s ++ [a]; videos := videos s |}.

Definition createVideo (v : Video.t) (s : t) : t :=
  {| jobs := jobs s; articles := articles s;
     summaries := summaries s; audios := audios s; videos := videos s ++ [v] |}.
End Store.

(* ===================================================================== *)
(** ** The orchestrator ([processJob], routes.ts) *)
(* ===================================================================== *)

(** The state a run works on: the store, the number of calls made to it,
    and the log of everything done so far. *)
Module World.
Record t : Type := mk {
  store : Store.t;
  storeCalls : nat;
  trace : list Event
}.
Definition start (s : Store.t) : t :=
  {| store := s; storeCalls := 0; trace := [] |}.
End World.

Definition M (A : Type) : Type := World.t -> Result A * World.t.

#[global] Instance Monad_M : Monad M := {
  ret A a := fun w => (Ok a, w);
  bind A B c f := fun w =>
    match c w with
    | (Ok a, w') => f a w'
    | (Throw e, w') => (Throw e, w')
    end;
  throw A e := fun w => (Throw e, w);
  tryCatch A c handler := fun w =>
    match c w with
    | (Ok a, w') => (Ok a, w')
    | (Throw e, w') => handler e w'
    end
}.

(** [await] of an adapter call: its requests go to the log. *)
Definition call {A : Type} (io : IO A) : M A := fun w =>
  (fst io,
   {| World.store := World.store w;
      World.storeCalls := World.storeCalls w;
      World.trace := World.trace w ++ snd io |}).

Section Orchestrator.

Variable env : Env.t.

(** [await storage.<operation>(...)]: the store rejects the call and
    nothing is written, or it performs [op] and [written] is logged. *)
Definition storeCall {A : Type} (op : Store.t -> A * Store.t)
           (written : list StoreWrite) : M A := fun w =>
  let n := World.storeCalls w in
  match Env.storeFault env n with
  | Some e =>
      (Throw e, {| World.store := World.store w;
                   World.storeCalls := S n;
                   World.trace := World.trace w |})
  | None =>
      let (a, s') := op (World.store w) in
      (Ok a, {| World.store := s';
                World.storeCalls := S n;
                World.trace := World.trace w ++ map EvStore written |})
  end.

Definition updateJobStatus (jobId : JsString) (status : Status)
           (error : option JsString) (progress : option Z) : M unit :=
  storeCall (fun s => (tt, Store.updateJobStatus jobId status error progress s))
            [WJobStatus jobId status error progress].

Definition getJobById (jobId : JsString) : M (option Job.t) :=
  storeCall (fun s => (Store.getJobById jobId s, s)) [].

Definition createArticle (a : Article.t) : M Article.t :=
  storeCall (fun s => (a, Store.createArticle a s)) [WArticle a].

Definition createSummary (x : Summary.t) : M Summary.t :=
  storeCall (fun s => (x, Store.createSummary x s)) [WSummary x].

Definition createAudio (a : Audio.t) : M Audio.t :=
  storeCall (fun s => (a, Store.createAudio a s)) [WAudio a].

Definition createVideo (v : Video.t) : M Video.t :=
  storeCall (fun s => (v, Store.createVideo v s)) [WVideo v].

(** The [try] block of [processJob]. *)
Definition processJobTry (jobId : JsString) : M unit :=
  updateJobStatus jobId Running None (Some 10) ;;
  (* Step 1: Fetch article *)
  found <- getJobById jobId ;;
  match found with
  | None => throw (newError (js "Job not found"))
  | Some job =>
    articles <- call (fetchArticles env (Job.topic job) (Job.language job)) ;;
    match articles with
    | [] => throw (newError (js "No articles found"))
    | first :: _ =>
      article <- createArticle
        {| Article.jobId := jobId;
           Article.source := js "gnews";
           Article.url := GNewsArticle.url first;
           Article.title := GNewsArticle.title first;
           Article.content := GNewsArticle.description first;
           Article.contentHash := generateHash (GNewsArticle.description first);
           Article.mediaUrl := GNewsArticle.image first;
           Article.publishedAt := GNewsArticle.publishedAt first |} ;;
      updateJobStatus jobId Running None (Some 25) ;;
      (* Step 2: Generate summary *)
      summaryText <- call (summarize env
                             (Article.title article ++ [10; 10]
                              ++ Article.content article)
                             (Job.targetLength job)) ;;
      summary <- createSummary
        {| Summary.jobId := jobId;
           Summary.text := summaryText;
           Summary.wordCount := wordCount summaryText;
           Summary.language := Job.language job |} ;;
      updateJobStatus jobId Running None (Some 50) ;;
      (* Step 3: Generate TTS *)
      audioResult <- call (generateTTS env (Summary.text summary)
                                       (Job.language job)) ;;
      audio <- createAudio
        {| Audio.jobId := jobId;
           Audio.url := TtsResult.audioUrl audioResult;
           Audio.duration := TtsResult.duration audioResult;
           Audio.sampleRate := 44100;
           Audio.format := TtsResult.format audioResult;
           Audio.size := 0 |} ;;
      updateJobStatus jobId Running None (Some 75) ;;
      (* Step 4: Generate video *)
      videoResult <- call (renderVideo env
        {| VideoRenderRequest.summary := Summary.text summary;
           VideoRenderRequest.audioUrl := TtsResult.audioUrl audioResult;
           VideoRenderRequest.duration := TtsResult.duration audioResult;
           VideoRenderRequest.images :=
             match whenTruthy (Article.mediaUrl article) with
             | Some mediaUrl => [mediaUrl]
             | None => []
             end;
           VideoRenderRequest.title := Article.title article |}) ;;
      video <- createVideo
        {| Video.jobId := jobId;
           Video.urlMp4 := VideoRenderResult.urlMp4 videoResult;
           Video.urlSrt := VideoRenderResult.urlSrt videoResult;
           Video.urlThumb := VideoRenderResult.urlThumb videoResult;
           Video.width := VideoRenderResult.width videoResult;
           Video.height := VideoRenderResult.height videoResult;
           Video.duration := VideoRenderResult.duration videoResult;
           Video.size := VideoRenderResult.size videoResult |} ;;
      updateJobStatus jobId Completed None (Some 100) ;;
      (* Step 5: Auto-publish if enabled *)
      if Job.autoPublish job then
        call (publishVideo env job video) ;; ret tt
      else
        ret tt
    end
  end.

(** [processJob(jobId)]: whatever the [try] block throws is recorded on
    the job by the [catch] block. *)
Definition processJob (jobId : JsString) : M unit :=
  tryCatch (processJobTry jobId)
           (fun error =>
              updateJobStatus jobId Failed (Some (messageOrUnknown error)) None).

End Orchestrator.

(* ===================================================================== *)
(** ** What is observed of a run *)
(* ===================================================================== *)

(** A run of [processJob] for a job of the store [s], from an empty log. *)
Definition run (env : Env.t) (jobId : JsString) (s : Store.t)
  : Result unit * World.t :=
  processJob env jobId (World.start s).

Definition traceOf (r : Result unit * World.t) : list Event :=
  World.trace (snd r).

Definition storeOf (r : Result unit * World.t) : Store.t :=
  World.store (snd r).

(** The writes the store accepted, in order. *)
Fixpoint storeWrites (log : list Event) : list StoreWrite :=
  match log with
  | [] => []
  | EvStore w :: log' => w :: storeWrites log'
  | _ :: log' => storeWrites log'
  end.

(** The status and progress of every status write, in order. *)
Fixpoint statusWrites (ws : list StoreWrite) : list (Status * option Z) :=
  match ws with
  | [] => []
  | WJobStatus _ status _ progress :: ws' => (status, progress) :: statusWrites ws'
  | _ :: ws' => statusWrites ws'
  end.

(** The progress values written, in order. *)
Fixpoint progressValues (l : list (Status * option Z)) : list Z :=
  match l with
  | [] => []
  | (_, Some p) :: l' => p :: progressValues l'
  | (_, None) :: l' => progressValues l'
  end.

(** The artifacts persisted, in order, by kind. *)
Inductive ArtifactKind : Type := KArticle | KSummary | KAudio | KVideo.

Fixpoint artifactsWritten (ws : list StoreWrite) : list ArtifactKind :=
  match ws with
  | [] => []
  | WJobStatus _ _ _ _ :: ws' => artifactsWritten ws'
  | WArticle _ :: ws' => KArticle :: artifactsWritten ws'
  | WSummary _ :: ws' => KSummary :: artifactsWritten ws'
  | WAudio _ :: ws' => KAudio :: artifactsWritten ws'
  | WVideo _ :: ws' => KVideo :: artifactsWritten ws'
  end.

(** The requests to the summarization model: attempt number and timeout. *)
Fixpoint summarizerRequests (log : list Event) : list (nat * Z) :=
  match log with
  | [] => []
  | EvSummarizerRequest attempt timeout _ _ :: log' =>
      (attempt, timeout) :: summarizerRequests log'
  | _ :: log' => summarizerRequests log'
  end.

Definition isUpload (e : Event) : bool :=
  match e with EvUpload _ _ => true | _ => false end.

Definition isFetchArticles (e : Event) : bool :=
  match e with EvFetchArticles _ _ => true | _ => false end.

Definition count (f : Event -> bool) (log : list Event) : nat :=
  List.length (filter f log).

(** The rows of a job in the four artifact tables. *)
Definition articlesOf (jobId : JsString) (s : Store.t) : list Article.t :=
  filter (fun a => Js.eqb (Article.jobId a) jobId) (Store.articles s).
Definition summariesOf (jobId : JsString) (s : Store.t) : list Summary.t :=
  filter (fun x => Js.eqb (Summary.jobId x) jobId) (Store.summaries s).
Definition audiosOf (jobId : JsString) (s : Store.t) : list Audio.t :=
  filter (fun a => Js.eqb (Audio.jobId a) jobId) (Store.audios s).
Definition videosOf (jobId : JsString) (s : Store.t) : list Video.t :=
  filter (fun v => Js.eqb (Video.jobId v) jobId) (Store.videos s).

Definition statusOf (jobId : JsString) (s : Store.t) : option Status :=
  option_map Job.status (Store.getJobById jobId s).
Definition progressOf (jobId : JsString) (s : Store.t) : option Z :=
  option_map Job.progress (Store.getJobById jobId s).
Definition errorOf (jobId : JsString) (s : Store.t) : option (option JsString) :=
  option_map Job.error (Store.getJobById jobId s).



(** The status writes of a run that nothing interrupts. *)
Definition plannedStatusWrites : list (Status * option Z) :=
  [(Running, Some 10); (Running, Some 25); (Running, Some 50);
   (Running, Some 75); (Completed, Some 100)].

(** The statuses written, in order. *)
Definition statusesWritten (l : list (Status * option Z)) : list Status :=
  map fst l.


Definition isStore (e : Event) : bool :=
  match e with EvStore _ => true | _ => false end.

Definition isRenderRequest (e : Event) : bool :=
  match e with EvRenderRequest _ _ => true | _ => false end.

(** The events of the summarizer adapter. *)
Definition isSummarizerEvent (e : Event) : bool :=
  match e with
  | EvSummarizerRequest _ _ _ _ | EvSleep _ => true
  | _ => false
  end.

(** The store accepts every call. *)
Definition storeReliable (env : Env.t) : Prop :=
  forall n, Env.storeFault env n = None.

(** *** The summarizer's attempts, classified *)

(** The request of attempt [n] and the pause after it. *)
Definition request (text : JsString) (maxLength : Z) (n : nat) : Event :=
  EvSummarizerRequest n (Z.of_nat n * 30000) text maxLength.

Definition pause (n : nat) : Event := EvSleep (2000 * Z.of_nat n).

Definition timeoutOf (n : nat) : nat * Z := (n, Z.of_nat n * 30000).

(** The summary a parsed body carries, if it carries one. *)
Definition summaryIn (result : HfJson) : option JsString :=
  match result with
  | HfNull => None
  | HfArray first => whenTruthy first
  | HfObject error summary_text =>
      match whenTruthy error with
      | Some _ => None
      | None => whenTruthy summary_text
      end
  end.

(** An attempt succeeds: a response with an ok status whose body carries a
    summary. *)
Definition succeeds (o : FetchOutcome HfJson) : option JsString :=
  match o with
  | Rejected _ => None
  | Responded r =>
      if Response.ok r
      then match Response.json r with
           | Ok result => summaryIn result
           | Throw _ => None
           end
      else None
  end.




(** *** The outcomes of the stages of [processJob], classified *)

(** The text [processJob] hands to the summarizer for an article. *)
Definition summaryInput (first : GNewsArticle.t) : JsString :=
  GNewsArticle.title first ++ [10; 10] ++ GNewsArticle.description first.

(** The render service answers with an ok status and a JSON body. *)
Definition renderResponds (env : Env.t) : option RenderJson.t :=
  match Env.renderFetch env with
  | Responded r =>
      if Response.ok r
      then match Response.json r with Ok j => Some j | Throw _ => None end
      else None
  | Rejected _ => None
  end.

Definition ttsResponds (env : Env.t) : option TtsJson.t :=
  match Env.ttsFetch env with
  | Responded r =>
      if Response.ok r
      then match Response.json r with Ok j => Some j | Throw _ => None end
      else None
  | Rejected _ => None
  end.

(** The auto-publish step is taken and its upload rejects. *)
Definition publishFails (env : Env.t) (job : Job.t) : option Thrown :=
  if Job.autoPublish job
  then match Env.uploadVideo env with Throw e => Some e | Ok _ => None end
  else None.

(** *** Two calls of [checkHealth] in sequence *)

Definition answer (r : bool * HealthCache.t * list Event) : bool := fst (fst r).
Definition cacheAfter (r : bool * HealthCache.t * list Event) : HealthCache.t :=
  snd (fst r).
Definition remoteCalls (r : bool * HealthCache.t * list Event) : nat :=
  healthRequests (snd r).

(** The fallback of a fresh check: the request times out while the cached
    value is [true]. *)
Definition timeoutFallback (remote : FetchOutcome HfJson) (cache : HealthCache.t)
  : bool :=
  match remote with
  | Rejected error => isAbortError error && HealthCache.lastHealthCheck cache
  | Responded _ => false
  end.

(** *** Shapes of a run *)


(** The nine writes of a run that reaches [completed]. *)
Definition pipelineWrites (jobId : JsString) (article : Article.t)
           (summary : Summary.t) (audio : Audio.t) (video : Video.t)
  : list StoreWrite :=
  [WJobStatus jobId Running None (Some 10); WArticle article;
   WJobStatus jobId Running None (Some 25); WSummary summary;
   WJobStatus jobId Running None (Some 50); WAudio audio;
   WJobStatus jobId Running None (Some 75); WVideo video;
   WJobStatus jobId Completed None (Some 100)].

(** The order in which artifacts are created. *)
Definition artifactOrder : list ArtifactKind :=
  [KArticle; KSummary; KAudio; KVideo].

(** [l] is a prefix of [plan], followed at most by the write of [failed]. *)
Fixpoint prefixThenFailed (plan l : list (Status * option Z)) : bool :=
  match l with
  | [] => true
  | [(Failed, None)] => true
  | (s, p) :: l' =>
      match plan with
      | (s', p') :: plan' =>
          Status_eqb s s'
          && match p, p' with
             | Some a, Some b => a =? b
             | None, None => true
             | _, _ => false
             end
          && prefixThenFailed plan' l'
      | [] => false
      end
  end.

(** [l] is a prefix of [order]. *)
Fixpoint isPrefix (l order : list ArtifactKind) : bool :=
  match l, order with
  | [], _ => true
  | a :: l', b :: order' =>
      match a, b with
      | KArticle, KArticle | KSummary, KSummary
      | KAudio, KAudio | KVideo, KVideo => isPrefix l' order'
      | _, _ => false
      end
  | _ :: _, [] => false
  end.

(** What every log of [processJob] satisfies: the status writes are planned
    ones, in order, then at most [failed]; [failed] follows [completed] only
    when the upload is rejected and stands alone only when the store
    rejects the first write; no service is called before [running] is
    written with progress 10; a Summary carries the word count of its text;
    artifacts are created in their order. *)
Definition shape (env : Env.t) (jobId : JsString) (trace : list Event) : Prop :=
    prefixThenFailed plannedStatusWrites (statusWrites (storeWrites trace)) = true
    /\ (statusWrites (storeWrites trace) = plannedStatusWrites ++ [(Failed, None)] ->
        exists e, Env.uploadVideo env = Throw e)
    /\ (statusWrites (storeWrites trace) = [(Failed, None)] -> Env.storeFault env 0 <> None)
    /\ (forall e, In e trace -> isStore e = false ->
        exists rest,
          trace = EvStore (WJobStatus jobId Running None (Some 10)) :: rest)
    /\ (forall s, In (WSummary s) (storeWrites trace) ->
        Summary.wordCount s = wordCount (Summary.text s))
    /\ isPrefix (artifactsWritten (storeWrites trace)) artifactOrder = true.

(* ===================================================================== *)
(** ** Concrete scenarios *)
(* ===================================================================== *)

Module Scenario.

Definition article : GNewsArticle.t :=
  {| GNewsArticle.url := js "https://news.example/climate";
     GNewsArticle.title := js "Climate talks";
     GNewsArticle.description := js "Delegates met  today.";
     GNewsArticle.image := None;
     GNewsArticle.publishedAt := js "2024-05-01T10:00:00Z" |}.

Definition respond {J : Type} (status : Z) (text : string) (json : Result J)
  : FetchOutcome J :=
  Responded {| Response.status := status; Response.text := js text;
               Response.json := json |}.

Definition notJson : Thrown :=
  ErrorObject (js "SyntaxError") (js "Unexpected token").

Definition summaryBody : Result HfJson :=
  Ok (HfArray (Some (js "Delegates met."))).

Definition ttsBody : Result TtsJson.t :=
  Ok {| TtsJson.audio_url := js "/audio/1.mp3"; TtsJson.duration := 12;
        TtsJson.format := None |}.

Definition renderBody (urlMp4 : option JsString) : Result RenderJson.t :=
  Ok {| RenderJson.urlMp4 := urlMp4; RenderJson.urlSrt := None;
        RenderJson.urlThumb := js "/thumb/1.jpg";
        RenderJson.width := 1920; RenderJson.height := 1080;
        RenderJson.duration := 12; RenderJson.size := 1000 |}.

(** Every service answers well; the upload does as [upload] says. *)
Definition allWell (upload : Result JsString) : Env.t :=
  {| Env.apiKey := js "hf_key";
     Env.fetchArticles := Ok [article];
     Env.summarizerFetch := fun _ => respond 200 "" summaryBody;
     Env.ttsFetch := respond 200 "" ttsBody;
     Env.renderFetch := respond 200 "" (renderBody (Some (js "/video/1.mp4")));
     Env.uploadVideo := upload;
     Env.storeFault := fun _ => None |}.

Definition uploaded : Result JsString := Ok (js "yt123").
Definition quotaExceeded : Result JsString :=
  Throw (newError (js "quotaExceeded")).

(** The summarizer answers as [answers] says; the rest is well. *)
Definition withSummarizer (answers : nat -> FetchOutcome HfJson) : Env.t :=
  {| Env.apiKey := js "hf_key";
     Env.fetchArticles := Ok [article];
     Env.summarizerFetch := answers;
     Env.ttsFetch := respond 200 "" ttsBody;
     Env.renderFetch := respond 200 "" (renderBody (Some (js "/video/1.mp4")));
     Env.uploadVideo := uploaded;
     Env.storeFault := fun _ => None |}.

(** HTTP 504 on attempts 1 and 2, a summary on attempt 3. *)
Definition twice504 (n : nat) : FetchOutcome HfJson :=
  match n with
  | 1%nat | 2%nat => respond 504 "Gateway Timeout" (Throw notJson)
  | _ => respond 200 "" summaryBody
  end.

(** HTTP 500 on attempt 1, a summary on attempt 2. *)
Definition once500 (n : nat) : FetchOutcome HfJson :=
  match n with
  | 1%nat => respond 500 "Internal Server Error" (Throw notJson)
  | _ => respond 200 "" summaryBody
  end.

(** The news source finds nothing. *)
Definition noArticles : Env.t :=
  {| Env.apiKey := js "hf_key";
     Env.fetchArticles := Ok [];
     Env.summarizerFetch := fun _ => respond 200 "" summaryBody;
     Env.ttsFetch := respond 200 "" ttsBody;
     Env.renderFetch := respond 200 "" (renderBody (Some (js "/video/1.mp4")));
     Env.uploadVideo := uploaded;
     Env.storeFault := fun _ => None |}.

(** The render service answers 200 with a body without [urlMp4]. *)
Definition renderIncomplete : Env.t :=
  {| Env.apiKey := js "hf_key";
     Env.fetchArticles := Ok [article];
     Env.summarizerFetch := fun _ => respond 200 "" summaryBody;
     Env.ttsFetch := respond 200 "" ttsBody;
     Env.renderFetch := respond 200 "" (renderBody None);
     Env.uploadVideo := uploaded;
     Env.storeFault := fun _ => None |}.

Definition jobId : JsString := js "job-1".

Definition job (autoPublish : bool) : Job.t :=
  {| Job.id := jobId; Job.topic := js "climate"; Job.language := js "en";
     Job.targetLength := 150; Job.autoPublish := autoPublish;
     Job.status := Pending; Job.progress := 0; Job.error := None |}.

(** A store holding the one pending job and no artifact. *)
Definition store (autoPublish : bool) : Store.t :=
  {| Store.jobs := [job autoPublish]; Store.articles := [];
     Store.summaries := []; Store.audios := []; Store.videos := [] |}.

Definition unavailable : FetchOutcome HfJson :=
  respond 503 "Service Unavailable" (Throw notJson).

End Scenario.

(** *** The stages of a run *)





(** [env] with the store rejecting its call number [k], counted from 0. *)
Definition rejectingCall (k : nat) (env : Env.t) : Env.t :=
  {| Env.apiKey := Env.apiKey env;
     Env.fetchArticles := Env.fetchArticles env;
     Env.summarizerFetch := Env.summarizerFetch env;
     Env.ttsFetch := Env.ttsFetch env;
     Env.renderFetch := Env.renderFetch env;
     Env.uploadVideo := Env.uploadVideo env;
     Env.storeFault := fun n => if (n =? k)%nat
                                then Some (newError (js "connection refused"))
                                else Env.storeFault env n |}.

(* ===================================================================== *)
(** ** Further observations *)
(* ===================================================================== *)

(** *** More observations of the summarizer *)

(** The first attempt among [attempts] attempts from [from] that succeeds,
    with its summary. *)
Fixpoint firstSuccess (fetch : nat -> FetchOutcome HfJson) (attempts from : nat)
  : option (nat * JsString) :=
  match attempts with
  | O => None
  | S attempts' =>
      match succeeds (fetch from) with
      | Some s => Some (from, s)
      | None => firstSuccess fetch attempts' (S from)
      end
  end.

(** The pauses of a log, and the time asked for in all: request timeouts
    and pauses, in milliseconds. *)
Fixpoint pauses (log : list Event) : list Z :=
  match log with
  | [] => []
  | EvSleep ms :: log' => ms :: pauses log'
  | _ :: log' => pauses log'
  end.

Definition total (l : list Z) : Z := fold_right Z.add 0 l.

(** *** Calls of [checkHealth] one after the other *)

(** Each call comes with its time and with what its request would do; the
    result is the answers, the cache after the last call and the requests
    made. *)
Fixpoint checkHealthCalls (env : Env.t) (calls : list (Z * FetchOutcome HfJson))
         (cache : HealthCache.t) : list bool * HealthCache.t * list Event :=
  match calls with
  | [] => ([], cache, [])
  | (now, remote) :: calls' =>
      let r := checkHealth env now remote cache in
      let rs := checkHealthCalls env calls' (cacheAfter r) in
      (answer r :: fst (fst rs), snd (fst rs), snd r ++ snd rs)
  end.

(** *** More observations of a run *)

Definition isTtsRequest (e : Event) : bool :=
  match e with EvTtsRequest _ _ _ => true | _ => false end.

(** The uploads of a log: the URL of the video and the title. *)
Fixpoint uploads (log : list Event) : list (JsString * JsString) :=
  match log with
  | [] => []
  | EvUpload videoUrl title :: log' => (videoUrl, title) :: uploads log'
  | _ :: log' => uploads log'
  end.

(** [1] when [n <= m], else [0]: whether the [n]-th artifact is among the
    first [m]. *)
Definition reached (n m : nat) : nat := if (n <=? m)%nat then 1%nat else 0%nat.

(** The log up to the first upload, and the log from the first upload
    on. *)
Fixpoint beforeUpload (log : list Event) : list Event :=
  match log with
  | [] => []
  | EvUpload _ _ :: _ => []
  | e :: log' => e :: beforeUpload log'
  end.

Fixpoint fromUpload (log : list Event) : list Event :=
  match log with
  | [] => []
  | EvUpload _ _ :: _ => log
  | _ :: log' => fromUpload log'
  end.

(** What every run of [processJob] keeps to, whatever the services and the
    store do ([st] is the store before the run, [r] its outcome). *)
Definition runInvariant (env : Env.t) (jobId : JsString) (st : Store.t)
           (r : Result unit * World.t) : Prop :=
  (* the artifacts come in their order, at most one of each *)
  (exists m,
     (m <= 4)%nat
     /\ artifactsWritten (storeWrites (traceOf r)) = firstn m artifactOrder
     /\ List.length (articlesOf jobId (storeOf r))
        = (List.length (articlesOf jobId st) + reached 1 m)%nat
     /\ List.length (summariesOf jobId (storeOf r))
        = (List.length (summariesOf jobId st) + reached 2 m)%nat
     /\ List.length (audiosOf jobId (storeOf r))
        = (List.length (audiosOf jobId st) + reached 3 m)%nat
     /\ List.length (videosOf jobId (storeOf r))
        = (List.length (videosOf jobId st) + reached 4 m)%nat)
  (* the calls a run makes *)
  /\ ((count isFetchArticles (traceOf r) <= 1)%nat
      /\ (List.length (summarizerRequests (traceOf r)) <= 5)%nat
      /\ (count isTtsRequest (traceOf r) <= 1)%nat
      /\ (count isRenderRequest (traceOf r) <= 1)%nat
      /\ (count isUpload (traceOf r) <= 1)%nat
      /\ (World.storeCalls (snd r) <= 11)%nat)
  (* an upload comes after the nine writes of a completed pipeline, and
     only the write of [failed] can come after it *)
  /\ (uploads (traceOf r) = []
      \/ exists job article summary audio video tail,
           Store.getJobById jobId st = Some job
           /\ Job.autoPublish job = true
           /\ storeWrites (beforeUpload (traceOf r))
              = pipelineWrites jobId article summary audio video
           /\ fromUpload (traceOf r)
              = EvUpload (Video.urlMp4 video)
                         (Job.topic job ++ js " - AutoNews Summary") :: tail
           /\ (tail = []
               \/ exists message,
                    tail = [EvStore (WJobStatus jobId Failed (Some message) None)]))
  (* the run rejects only with what the store rejected its last call with *)
  /\ (forall e, fst r = Throw e ->
        exists n, World.storeCalls (snd r) = S n /\ Env.storeFault env n = Some e)
  (* the other jobs and their artifacts are left alone *)
  /\ (forall other, Js.eqb jobId other = false ->
        Store.getJobById other (storeOf r) = Store.getJobById other st
        /\ articlesOf other (storeOf r) = articlesOf other st
        /\ summariesOf other (storeOf r) = summariesOf other st
        /\ audiosOf other (storeOf r) = audiosOf other st
        /\ videosOf other (storeOf r) = videosOf other st).

(** The store rejects every call. *)
Definition storeDown : Env.t :=
  {| Env.apiKey := js "hf_key";
     Env.fetchArticles := Ok [Scenario.article];
     Env.summarizerFetch := fun _ => Scenario.respond 200 "" Scenario.summaryBody;
     Env.ttsFetch := Scenario.respond 200 "" Scenario.ttsBody;
     Env.renderFetch :=
       Scenario.respond 200 "" (Scenario.renderBody (Some (js "/video/1.mp4")));
     Env.uploadVideo := Scenario.uploaded;
     Env.storeFault := fun _ => Some (newError (js "connection refused")) |}.

(** A second job, completed, with an article of its own, and a store that
    holds it next to the pending job. *)
Definition otherJobId : JsString := js "job-2".

Definition otherJob : Job.t :=
  {| Job.id := otherJobId; Job.topic := js "elections"; Job.language := js "en";
     Job.targetLength := 200; Job.autoPublish := false;
     Job.status := Completed; Job.progress := 100; Job.error := None |}.

Definition otherArticle : Article.t :=
  {| Article.jobId := otherJobId;
     Article.source := js "gnews";
     Article.url := js "https://news.example/elections";
     Article.title := js "Election day";
     Article.content := js "Polls opened.";
     Article.contentHash := generateHash (js "Polls opened.");
     Article.mediaUrl := None;
     Article.publishedAt := js "2024-04-30T08:00:00Z" |}.

Definition twoJobs : Store.t :=
  {| Store.jobs := [Scenario.job true; otherJob];
     Store.articles := [otherArticle];
     Store.summaries := []; Store.audios := []; Store.videos := [] |}.

(** *** What [split] keeps and what it counts *)

Definition notWhiteSpace (c : Z) : bool := negb (isWhiteSpace c).

(** The number of maximal runs of white space in [s]; [inRun] tells whether
    the character before [s] is white space. *)
Fixpoint whiteSpaceRuns (inRun : bool) (s : JsString) : nat :=
  match s with
  | [] => O
  | c :: s' =>
      if isWhiteSpace c
      then ((if inRun then 0 else 1) + whiteSpaceRuns true s')%nat
      else whiteSpaceRuns false s'
  end.

(** *** The fingerprint without its wrap-around *)

(** The code units of [content] as the coefficients of a polynomial in 31,
    by Horner's scheme and in unbounded integers. *)
Definition polynomial (content : JsString) : Z :=
  fold_left (fun hash char => 31 * hash + char) content 0.

(* ===================================================================== *)
(** * Properties *)
(* ===================================================================== *)

(** ** The fingerprint *)

Section Fingerprint.

Lemma toInt32_range x : - 2 ^ 31 <= toInt32 x < 2 ^ 31.
Proof.
  unfold toInt32.
  pose proof (Z.mod_pos_bound (x + 2 ^ 31) (2 ^ 32) ltac:(lia)). lia.
Qed.

Lemma toInt32_small x : - 2 ^ 31 <= x < 2 ^ 31 -> toInt32 x = x.
Proof. intro H. unfold toInt32. rewrite Z.mod_small; lia. Qed.

Lemma toInt32_idem x : toInt32 (toInt32 x) = toInt32 x.
Proof. apply toInt32_small, toInt32_range. Qed.

(** [hash & hash] only brings [hash] back to 32 bits. *)
Lemma band_self x : band x x = toInt32 x.
Proof. unfold band. rewrite Z.land_diag. apply toInt32_idem. Qed.

(** On a 32-bit value, [(hash << 5) - hash] is [31 * hash] up to the
    wrap-around. *)
Lemma specUpdate_31 hash char :
  - 2 ^ 31 <= hash < 2 ^ 31 ->
  specUpdate hash char = toInt32 (31 * hash + char).
Proof.
  intro H. unfold specUpdate, shl.
  rewrite (toInt32_small hash H).
  change (5 mod 32) with 5. rewrite Z.shiftl_mul_pow2 by lia.
  unfold toInt32.
  replace (hash * 2 ^ 5 + 2 ^ 31) with (32 * hash + 2 ^ 31) by lia.
  f_equal.
  rewrite <- (Zplus_mod_idemp_l ((32 * hash + 2 ^ 31) mod 2 ^ 32 - 2 ^ 31 - hash + char)).
  rewrite <- (Zplus_mod_idemp_l (31 * hash + char)).
  f_equal. f_equal.
  replace ((32 * hash + 2 ^ 31) mod 2 ^ 32 - 2 ^ 31 - hash + char)
    with ((32 * hash + 2 ^ 31) mod 2 ^ 32 + (char - hash - 2 ^ 31)) by lia.
  rewrite Zplus_mod_idemp_l. f_equal. lia.
Qed.

(** Every intermediate value of the loop body is an integer a double
    holds exactly, so the arithmetic on [Z] is the arithmetic of the code. *)
Lemma hashStep_exact hash char :
  - 2 ^ 31 <= hash < 2 ^ 31 -> codeUnit char ->
  - 2 ^ 53 < (shl hash 5 - hash) + char < 2 ^ 53.
Proof.
  intros H Hc. unfold codeUnit in Hc.
  pose proof (toInt32_range (Z.shiftl (toInt32 hash) (5 mod 32))) as R.
  unfold shl. lia.
Qed.

Lemma hashStep_spec content i hash :
  hashStep content i hash = specUpdate hash (charCodeAt content i).
Proof. unfold hashStep, specUpdate. apply band_self. Qed.

Lemma skipn_head (l : JsString) : forall i c rest,
  skipn i l = c :: rest -> charCodeAt l i = c /\ skipn (S i) l = rest.
Proof.
  unfold charCodeAt.
  induction l as [|x l IH]; intros i c rest E.
  - destruct i; discriminate.
  - destruct i as [|i].
    + cbn in E. injection E as -> ->. split; reflexivity.
    + cbn [skipn] in E. destruct (IH i c rest E) as [H1 H2].
      split; [exact H1|exact H2].
Qed.

(** The indexed loop visits the characters in order. *)
Lemma hashLoop_fold content : forall rest i hash,
  skipn i content = rest ->
  hashLoop content i hash (List.length rest) = fold_left specUpdate rest hash.
Proof.
  induction rest as [|c rest IH]; intros i hash E;
    cbn [List.length hashLoop fold_left]; [reflexivity|].
  destruct (skipn_head content i c rest E) as [Hc Hrest].
  rewrite hashStep_spec, Hc.
  apply IH. exact Hrest.
Qed.

Lemma hashAccumulator_spec content :
  hashAccumulator content = specAccumulator content.
Proof. apply (hashLoop_fold content content 0%nat 0). reflexivity. Qed.

Lemma specAccumulator_range content :
  - 2 ^ 31 <= specAccumulator content < 2 ^ 31.
Proof.
  unfold specAccumulator.
  assert (G : forall l h, - 2 ^ 31 <= h < 2 ^ 31 ->
                          - 2 ^ 31 <= fold_left specUpdate l h < 2 ^ 31).
  { induction l as [|c l IH]; intros h Hh; simpl; [assumption|].
    apply IH. apply toInt32_range. }
  apply G. lia.
Qed.

(** [toString(16)] writes a numeral that reads back as the number. *)
Lemma parseHex_toString16 n :
  0 <= n ->
  exists numeral, toString16 n = js numeral /\ parseHex numeral = Some n.
Proof.
  intro Hn. unfold toString16.
  exists (NilZero.string_of_uint (N.to_hex_uint (Z.to_N n))).
  split; [reflexivity|].
  unfold parseHex.
  destruct (N.to_hex_uint (Z.to_N n)) eqn:E.
  1: { pose proof (Unsigned.of_to (Z.to_N n)) as H. rewrite E in H.
       simpl in *. f_equal. lia. }
  all: rewrite NilZero.usu by discriminate;
    rewrite <- E, Unsigned.of_to; f_equal; lia.
Qed.

Example generateHash_abc : generateHash (js "abc") = js "17862".
Proof. reflexivity. Qed.

Example generateHash_wraps :
  hashAccumulator (js "hello world, this is a long text") = -1522881306
  /\ generateHash (js "hello world, this is a long text") = js "5ac5531a".
Proof. split; reflexivity. Qed.

(** C9. [generateHash] is a function of the content alone: equal strings
    have equal fingerprints.  Its value is the base-16 numeral of the
    absolute value of a signed 32-bit accumulator that starts at 0 and is
    updated as [hash = ((hash << 5) - hash) + charCode] for each character
    in turn; that absolute value lies in [0, 2^31], and the empty string
    hashes to ["0"]. *)
Theorem generateHash_fingerprint (content : JsString) :
  (forall other, content = other -> generateHash content = generateHash other)
  /\ hashAccumulator content = specAccumulator content
  /\ - 2 ^ 31 <= specAccumulator content < 2 ^ 31
  /\ 0 <= Z.abs (specAccumulator content) <= 2 ^ 31
  /\ (exists numeral,
        generateHash content = js numeral
        /\ parseHex numeral = Some (Z.abs (specAccumulator content)))
  /\ generateHash [] = js "0".
Proof.
  pose proof (specAccumulator_range content) as R.
  split; [intros other ->; reflexivity|].
  split; [apply hashAccumulator_spec|].
  split; [exact R|].
  split; [lia|].
  split; [|reflexivity].
  unfold generateHash. rewrite hashAccumulator_spec.
  apply parseHex_toString16. lia.
Qed.

End Fingerprint.

(* ===================================================================== *)
(** ** The word count *)

Section WordCount.

Lemma splitLoop_length str p q : (1 <= List.length (splitLoop str p q))%nat.
Proof.
  funelim (splitLoop str p q); simpl; try lia; assumption.
Qed.

Lemma splitWhiteSpace_length str :
  (1 <= List.length (splitWhiteSpace str))%nat.
Proof.
  destruct str as [|c s]; simpl; [lia|]. apply splitLoop_length.
Qed.

Lemma wordCount_positive text : 1 <= wordCount text.
Proof.
  unfold wordCount. pose proof (splitWhiteSpace_length text). lia.
Qed.

Example split_words :
  splitWhiteSpace (js "Delegates met  today.")
  = [js "Delegates"; js "met"; js "today."].
Proof. reflexivity. Qed.

Example split_edges :
  splitWhiteSpace (js " a b ") = [[]; js "a"; js "b"; []].
Proof. reflexivity. Qed.

Example wordCount_empty : wordCount [] = 1.
Proof. reflexivity. Qed.

Example wordCount_blank : wordCount (js "   ") = 2.
Proof. reflexivity. Qed.

(** A text of white space only splits into two empty pieces. *)
Lemma whiteSpaceRun_all text :
  forallb isWhiteSpace text = true -> whiteSpaceRun text = List.length text.
Proof.
  induction text as [|c text IH]; simpl; [reflexivity|].
  intro H. apply andb_prop in H. destruct H as [-> H]. rewrite IH by exact H. reflexivity.
Qed.

Lemma splitLoop_end str p : splitLoop str p (List.length str) = [slice str p (List.length str)].
Proof.
  simp splitLoop. destruct (lt_dec (List.length str) (List.length str)); [lia|].
  reflexivity.
Qed.


Lemma splitLoop_match str p q e :
  (q < List.length str)%nat -> matchAt str q = Some e -> e <> p ->
  splitLoop str p q = slice str p q :: splitLoop str e e.
Proof.
  intros Hq Hm He.
  funelim (splitLoop str p q); try lia; congruence.
Qed.

Lemma splitWhiteSpace_blank text :
  text <> [] -> forallb isWhiteSpace text = true ->
  splitWhiteSpace text = [[]; []].
Proof.
  intros Hne Hall.
  destruct text as [|c text]; [congruence|].
  cbn [splitWhiteSpace].
  set (str := c :: text) in *.
  assert (M : matchAt str 0 = Some (List.length str)).
  { unfold matchAt. cbn [skipn]. rewrite (whiteSpaceRun_all str Hall). reflexivity. }
  rewrite (splitLoop_match str 0 0 (List.length str)); [|cbn; lia|exact M|cbn; lia].
  rewrite splitLoop_end. unfold slice.
  rewrite !Nat.sub_diag. reflexivity.
Qed.

End WordCount.

(* ===================================================================== *)
(** ** The summarizer's retry loop *)

Ltac split_on t := let E := fresh "E" in destruct t eqn:E; rewrite ?E in *.

(** Case analysis along one pass of the loop body. *)
Ltac attempt_cases :=
  unfold maxRetries in *;
  repeat first
    [ progress cbn -[Z.mul Z.of_nat Nat.ltb Nat.eqb Z.eqb Z.leb] in *
    | match goal with
      | H : ?b = true |- context [?b] => rewrite H
      | H : ?b = false |- context [?b] => rewrite H
      | H : _ && _ = true |- _ => apply andb_prop in H; destruct H
      | H : negb _ = true |- _ => apply negb_true_iff in H
      | H : (Response.status ?r =? 504) = true |- _ =>
          apply Z.eqb_eq in H; unfold Response.ok in *; rewrite H in *
      | |- context [Env.summarizerFetch ?e ?n] =>
          split_on (Env.summarizerFetch e n)
      | |- context [(?n <? 5)%nat] => destruct (Nat.ltb_spec n 5); try lia
      | |- context [(?n =? 5)%nat] => destruct (Nat.eqb_spec n 5); try lia
      | |- context [Response.ok ?r] => split_on (Response.ok r)
      | |- context [Response.json ?r] => split_on (Response.json r)
      | |- context [match ?j with HfNull => _ | _ => _ end] => destruct j
      | |- context [whenTruthy ?f] => split_on (whenTruthy f)
      | |- context [if ?b then _ else _] => split_on b
      end ];
  try discriminate;
  repeat match goal with
         | H : Some _ = Some _ |- _ => injection H as H; subst
         end;
  try reflexivity; try congruence.

Section Summarizer.

Variable env : Env.t.
Variables (text : JsString) (maxLength : Z).

Local Abbreviation fetch := (Env.summarizerFetch env).
Local Abbreviation body := (attemptBody env text maxLength).
Local Abbreviation loop := (summarizeLoop env text maxLength).
Local Abbreviation req := (request text maxLength).

(** A pass makes the request of its attempt and at most one pause, and
    a pause is always followed by the next pass. *)
Lemma attemptBody_log n le :
  exists r rest,
    body n le = (r, req n :: rest)
    /\ (rest = [] \/ (rest = [pause n] /\ exists le', r = Ok (Continue, le'))).
Proof.
  unfold attemptBody, attemptTry, attemptCatch, request, pause, initialTimeout.
  rewrite (Z.mul_comm 30000).
  attempt_cases; eexists; eexists; (split; [reflexivity|]); eauto.
Qed.

Lemma attemptBody_success n le s :
  succeeds (fetch n) = Some s ->
  body n le = (Ok (Return s, le), [req n]).
Proof.
  unfold attemptBody, attemptTry, attemptCatch, request, pause,
    initialTimeout, succeeds, summaryIn.
  rewrite (Z.mul_comm 30000). intro H.
  attempt_cases.
Qed.





Lemma summarizerRequests_app a b :
  summarizerRequests (a ++ b) = summarizerRequests a ++ summarizerRequests b.
Proof.
  induction a as [|e a IH]; simpl; [reflexivity|].
  destruct e; simpl; rewrite ?IH; reflexivity.
Qed.

(** One pass through the loop, unfolded. *)
Lemma summarizeLoop_step remaining attempt le r log :
  body attempt le = (r, log) ->
  loop (S remaining) attempt le
  = match r with
    | Ok (Return s, _) => (Ok s, log)
    | Ok (Continue, le') =>
        (fst (loop remaining (S attempt) le'),
         log ++ snd (loop remaining (S attempt) le'))
    | Throw e => (Throw e, log)
    end.
Proof.
  intro E. cbn [summarizeLoop bind Monad_IO]. rewrite E.
  destruct r as [[[s|] le']|e]; cbn [ret Monad_IO];
    rewrite ?app_nil_r; try reflexivity.
  destruct (loop remaining (S attempt) le'); reflexivity.
Qed.


(** The requests of the loop are those of consecutive attempts. *)
Lemma summarizeLoop_requests : forall remaining attempt le,
  exists k, (k <= remaining)%nat /\ ((1 <= remaining)%nat -> (1 <= k)%nat) /\
    summarizerRequests (snd (loop remaining attempt le))
    = map timeoutOf (seq attempt k).
Proof.
  induction remaining as [|remaining IH]; intros attempt le.
  - exists 0%nat. simpl. repeat split; try lia.
  - destruct (attemptBody_log attempt le) as (r & rest & E & Hrest).
    rewrite (summarizeLoop_step _ _ _ _ _ E).
    assert (R : summarizerRequests (req attempt :: rest) = [timeoutOf attempt]).
    { destruct Hrest as [->|[-> _]]; reflexivity. }
    destruct r as [[[s|] le']|e]; cbn [snd].
    + exists 1%nat. repeat split; try lia. exact R.
    + destruct (IH (S attempt) le') as (k & Hk & Hk1 & Hreq).
      exists (S k). repeat split; try lia.
      rewrite summarizerRequests_app, R, Hreq. reflexivity.
    + exists 1%nat. repeat split; try lia. exact R.
Qed.




(** The log of [summarize] when a key is configured is the log of the
    loop from attempt 1. *)
Lemma summarize_loop :
  truthy (Env.apiKey env) = true ->
  summarize env text maxLength = loop 5%nat 1%nat None.
Proof. intro H. unfold summarize. rewrite H. reflexivity. Qed.

End Summarizer.






(** Without a key nothing is requested. *)
Lemma summarize_without_key (env : Env.t) (text : JsString) (maxLength : Z) :
  truthy (Env.apiKey env) = false ->
  summarize env text maxLength
  = (Throw (newError (js "HUGGINGFACE_API_KEY not configured")), []).
Proof. intro H. unfold summarize. rewrite H. reflexivity. Qed.

(* ===================================================================== *)
(** ** The health check and its cache *)

Section HealthCheck.

Variable env : Env.t.
Hypothesis key : truthy (Env.apiKey env) = true.

(** A call is answered from the cache exactly when it starts less than
    60 seconds after the recorded time. *)
Lemma checkHealth_cached now remote cache :
  now - HealthCache.lastHealthCheckTime cache < healthCheckCacheDuration ->
  checkHealth env now remote cache
  = (HealthCache.lastHealthCheck cache, cache, []).
Proof.
  intro H. unfold checkHealth. rewrite key. cbn [negb].
  destruct (Z.ltb_spec (now - HealthCache.lastHealthCheckTime cache)
                       healthCheckCacheDuration); [reflexivity|lia].
Qed.

Lemma checkHealth_fresh now remote cache :
  healthCheckCacheDuration <= now - HealthCache.lastHealthCheckTime cache ->
  remoteCalls (checkHealth env now remote cache) = 1%nat.
Proof.
  intro H. unfold checkHealth. rewrite key. cbn [negb].
  destruct (Z.ltb_spec (now - HealthCache.lastHealthCheckTime cache)
                       healthCheckCacheDuration); [lia|].
  destruct remote as [e|r]; [|reflexivity].
  destruct (isAbortError e && HealthCache.lastHealthCheck cache); reflexivity.
Qed.

(** A remote check that does not end in the fallback records its answer
    and the time the call started. *)
Lemma checkHealth_records now remote cache :
  remoteCalls (checkHealth env now remote cache) = 1%nat ->
  timeoutFallback remote cache = false ->
  cacheAfter (checkHealth env now remote cache)
  = {| HealthCache.lastHealthCheck := answer (checkHealth env now remote cache);
       HealthCache.lastHealthCheckTime := now |}.
Proof.
  unfold checkHealth, timeoutFallback. rewrite key. cbn [negb].
  destruct (now - HealthCache.lastHealthCheckTime cache <? healthCheckCacheDuration);
    [discriminate|].
  destruct remote as [e|r]; intros _ H; [rewrite H|]; reflexivity.
Qed.

(** The fallback leaves both fields as they were. *)
Lemma checkHealth_fallback now remote cache :
  remoteCalls (checkHealth env now remote cache) = 1%nat ->
  timeoutFallback remote cache = true ->
  checkHealth env now remote cache = (true, cache, [EvHealthRequest 15000]).
Proof.
  unfold checkHealth, timeoutFallback. rewrite key. cbn [negb].
  destruct (now - HealthCache.lastHealthCheckTime cache <? healthCheckCacheDuration);
    [discriminate|].
  destruct remote as [e|r]; intros _ H; [|discriminate].
  rewrite H. apply andb_prop in H. destruct H as [_ ->]. reflexivity.
Qed.

End HealthCheck.

(** C8, as the code has it.  With a key configured, take two calls of
    [checkHealth()] in sequence, the first making a remote check.  When
    that check does not end in the timeout fallback and the second call
    starts less than 60 seconds after the first, the second call makes no
    request and returns the boolean of the first: one request in all.  When
    the check does end in the fallback (the request times out while the
    cached value is [true]), the first call returns [true] and leaves the
    cache and its time untouched, so the second call is served as if the
    first had not been made. *)
Theorem checkHealth_cache_window
        (env : Env.t) (now1 now2 : Z) (remote1 remote2 : FetchOutcome HfJson)
        (cache : HealthCache.t) :
  truthy (Env.apiKey env) = true ->
  remoteCalls (checkHealth env now1 remote1 cache) = 1%nat ->
  (timeoutFallback remote1 cache = false ->
   now2 - now1 < 60000 ->
   remoteCalls (checkHealth env now2 remote2
                            (cacheAfter (checkHealth env now1 remote1 cache)))
   = 0%nat
   /\ answer (checkHealth env now2 remote2
                          (cacheAfter (checkHealth env now1 remote1 cache)))
      = answer (checkHealth env now1 remote1 cache))
  /\ (timeoutFallback remote1 cache = true ->
      answer (checkHealth env now1 remote1 cache) = true
      /\ cacheAfter (checkHealth env now1 remote1 cache) = cache).
Proof.
  intros key Hremote. split.
  - intros Hno Hwindow.
    rewrite (checkHealth_records env key now1 remote1 cache Hremote Hno).
    rewrite checkHealth_cached; [split; reflexivity | exact key |].
    cbn [HealthCache.lastHealthCheckTime]. unfold healthCheckCacheDuration. lia.
  - intro Hfallback.
    rewrite (checkHealth_fallback env key now1 remote1 cache Hremote Hfallback).
    split; reflexivity.
Qed.

Lemma checkHealth_cache_window_witness :
  remoteCalls (checkHealth (Scenario.allWell Scenario.uploaded) 1700000030000
                 Scenario.unavailable
                 (cacheAfter (checkHealth (Scenario.allWell Scenario.uploaded)
                                1700000000000 Scenario.unavailable
                                HealthCache.initial)))
  = 0%nat
  /\ answer (checkHealth (Scenario.allWell Scenario.uploaded) 1700000030000
               Scenario.unavailable
               (cacheAfter (checkHealth (Scenario.allWell Scenario.uploaded)
                              1700000000000 Scenario.unavailable
                              HealthCache.initial)))
     = answer (checkHealth (Scenario.allWell Scenario.uploaded) 1700000000000
                 Scenario.unavailable HealthCache.initial).
Proof.
  apply (checkHealth_cache_window
           (Scenario.allWell Scenario.uploaded) 1700000000000 1700000030000
           Scenario.unavailable Scenario.unavailable HealthCache.initial
           eq_refl eq_refl);
    [reflexivity | lia].
Defined.

(** C8, as stated, fails: the first call, at time 1700000000000, makes a
    remote check that times out and answers [true] from the initial cache;
    the second call, one second later, makes a remote check of its own and
    answers [false].  Two requests, two different booleans. *)
Lemma checkHealth_timeout_is_not_cached :
  1700000001000 - 1700000000000 < 60000
  /\ remoteCalls (checkHealth (Scenario.allWell Scenario.uploaded) 1700000000000
                    (Rejected abortError) HealthCache.initial) = 1%nat
  /\ remoteCalls (checkHealth (Scenario.allWell Scenario.uploaded) 1700000001000
                    Scenario.unavailable
                    (cacheAfter (checkHealth (Scenario.allWell Scenario.uploaded)
                                   1700000000000 (Rejected abortError)
                                   HealthCache.initial))) = 1%nat
  /\ answer (checkHealth (Scenario.allWell Scenario.uploaded) 1700000000000
               (Rejected abortError) HealthCache.initial) = true
  /\ answer (checkHealth (Scenario.allWell Scenario.uploaded) 1700000001000
               Scenario.unavailable
               (cacheAfter (checkHealth (Scenario.allWell Scenario.uploaded)
                              1700000000000 (Rejected abortError)
                              HealthCache.initial))) = false.
Proof. repeat split; reflexivity. Qed.

(* ===================================================================== *)
(** ** The job store *)

Section StoreFacts.

Lemma eqb_refl (a : JsString) : Js.eqb a a = true.
Proof.
  induction a as [|x a IH]; simpl; [reflexivity|].
  rewrite Z.eqb_refl, IH. reflexivity.
Qed.

Variable jobId : JsString.

Lemma getJobById_update status error progress s :
  Store.getJobById jobId (Store.updateJobStatus jobId status error progress s)
  = option_map (Store.setStatus status error progress)
               (Store.getJobById jobId s).
Proof.
  unfold Store.getJobById, Store.updateJobStatus. cbn [Store.jobs].
  induction (Store.jobs s) as [|j l IH]; cbn [map find]; [reflexivity|].
  destruct (Js.eqb (Job.id j) jobId) eqn:E.
  - cbn [Store.setStatus Job.id]. rewrite E. reflexivity.
  - rewrite E. exact IH.
Qed.

Lemma getJobById_createArticle a s :
  Store.getJobById jobId (Store.createArticle a s) = Store.getJobById jobId s.
Proof. reflexivity. Qed.
Lemma getJobById_createSummary x s :
  Store.getJobById jobId (Store.createSummary x s) = Store.getJobById jobId s.
Proof. reflexivity. Qed.
Lemma getJobById_createAudio a s :
  Store.getJobById jobId (Store.createAudio a s) = Store.getJobById jobId s.
Proof. reflexivity. Qed.
Lemma getJobById_createVideo v s :
  Store.getJobById jobId (Store.createVideo v s) = Store.getJobById jobId s.
Proof. reflexivity. Qed.

(** A status update touches no artifact table. *)
Lemma articlesOf_update i status error progress s :
  articlesOf jobId (Store.updateJobStatus i status error progress s)
  = articlesOf jobId s.
Proof. reflexivity. Qed.
Lemma summariesOf_update i status error progress s :
  summariesOf jobId (Store.updateJobStatus i status error progress s)
  = summariesOf jobId s.
Proof. reflexivity. Qed.
Lemma audiosOf_update i status error progress s :
  audiosOf jobId (Store.updateJobStatus i status error progress s)
  = audiosOf jobId s.
Proof. reflexivity. Qed.
Lemma videosOf_update i status error progress s :
  videosOf jobId (Store.updateJobStatus i status error progress s)
  = videosOf jobId s.
Proof. reflexivity. Qed.

(** A [create] adds its row to its own table and touches no other. *)
Lemma articlesOf_createArticle a s :
  Article.jobId a = jobId ->
  articlesOf jobId (Store.createArticle a s) = articlesOf jobId s ++ [a].
Proof.
  intro H. unfold articlesOf, Store.createArticle. cbn [Store.articles].
  rewrite filter_app. cbn [filter]. rewrite H, eqb_refl. reflexivity.
Qed.
Lemma summariesOf_createSummary x s :
  Summary.jobId x = jobId ->
  summariesOf jobId (Store.createSummary x s) = summariesOf jobId s ++ [x].
Proof.
  intro H. unfold summariesOf, Store.createSummary. cbn [Store.summaries].
  rewrite filter_app. cbn [filter]. rewrite H, eqb_refl. reflexivity.
Qed.
Lemma audiosOf_createAudio a s :
  Audio.jobId a = jobId ->
  audiosOf jobId (Store.createAudio a s) = audiosOf jobId s ++ [a].
Proof.
  intro H. unfold audiosOf, Store.createAudio. cbn [Store.audios].
  rewrite filter_app. cbn [filter]. rewrite H, eqb_refl. reflexivity.
Qed.
Lemma videosOf_createVideo v s :
  Video.jobId v = jobId ->
  videosOf jobId (Store.createVideo v s) = videosOf jobId s ++ [v].
Proof.
  intro H. unfold videosOf, Store.createVideo. cbn [Store.videos].
  rewrite filter_app. cbn [filter]. rewrite H, eqb_refl. reflexivity.
Qed.

Lemma articlesOf_createSummary x s :
  articlesOf jobId (Store.createSummary x s) = articlesOf jobId s.
Proof. reflexivity. Qed.
Lemma articlesOf_createAudio a s :
  articlesOf jobId (Store.createAudio a s) = articlesOf jobId s.
Proof. reflexivity. Qed.
Lemma articlesOf_createVideo v s :
  articlesOf jobId (Store.createVideo v s) = articlesOf jobId s.
Proof. reflexivity. Qed.
Lemma summariesOf_createArticle a s :
  summariesOf jobId (Store.createArticle a s) = summariesOf jobId s.
Proof. reflexivity. Qed.
Lemma summariesOf_createAudio a s :
  summariesOf jobId (Store.createAudio a s) = summariesOf jobId s.
Proof. reflexivity. Qed.
Lemma summariesOf_createVideo v s :
  summariesOf jobId (Store.createVideo v s) = summariesOf jobId s.
Proof. reflexivity. Qed.
Lemma audiosOf_createArticle a s :
  audiosOf jobId (Store.createArticle a s) = audiosOf jobId s.
Proof. reflexivity. Qed.
Lemma audiosOf_createSummary x s :
  audiosOf jobId (Store.createSummary x s) = audiosOf jobId s.
Proof. reflexivity. Qed.
Lemma audiosOf_createVideo v s :
  audiosOf jobId (Store.createVideo v s) = audiosOf jobId s.
Proof. reflexivity. Qed.
Lemma videosOf_createArticle a s :
  videosOf jobId (Store.createArticle a s) = videosOf jobId s.
Proof. reflexivity. Qed.
Lemma videosOf_createSummary x s :
  videosOf jobId (Store.createSummary x s) = videosOf jobId s.
Proof. reflexivity. Qed.
Lemma videosOf_createAudio a s :
  videosOf jobId (Store.createAudio a s) = videosOf jobId s.
Proof. reflexivity. Qed.

End StoreFacts.

Create Rewrite HintDb store.
#[global] Hint Rewrite
  getJobById_update getJobById_createArticle getJobById_createSummary
  getJobById_createAudio getJobById_createVideo
  articlesOf_update summariesOf_update audiosOf_update videosOf_update
  articlesOf_createSummary articlesOf_createAudio articlesOf_createVideo
  summariesOf_createArticle summariesOf_createAudio summariesOf_createVideo
  audiosOf_createArticle audiosOf_createSummary audiosOf_createVideo
  videosOf_createArticle videosOf_createSummary videosOf_createAudio
  : store.
#[global] Hint Rewrite
  articlesOf_createArticle summariesOf_createSummary
  audiosOf_createAudio videosOf_createVideo using reflexivity : store.

(* ===================================================================== *)
(** ** The log of a run *)

Section Logs.

Lemma storeWrites_app a b :
  storeWrites (a ++ b) = storeWrites a ++ storeWrites b.
Proof.
  induction a as [|e a IH]; simpl; [reflexivity|].
  destruct e; simpl; rewrite ?IH; reflexivity.
Qed.

Lemma count_app f a b : count f (a ++ b) = (count f a + count f b)%nat.
Proof. unfold count. rewrite filter_app, length_app. reflexivity. Qed.

(** The events of the summarizer are no store write, no upload, no
    request to the news source or the render service. *)
Lemma storeWrites_summarizer log :
  forallb isSummarizerEvent log = true -> storeWrites log = [].
Proof.
  induction log as [|e log IH]; simpl; [reflexivity|].
  destruct e; simpl; intro H; try discriminate; apply IH; assumption.
Qed.

Lemma count_summarizer f log :
  (forall e, isSummarizerEvent e = true -> f e = false) ->
  forallb isSummarizerEvent log = true -> count f log = 0%nat.
Proof.
  intros Hf. unfold count.
  induction log as [|e log IH]; simpl; [reflexivity|].
  intro H. apply andb_prop in H. destruct H as [He Hlog].
  rewrite (Hf e He). apply IH. exact Hlog.
Qed.

Lemma existsb_summarizer f log :
  (forall e, isSummarizerEvent e = true -> f e = false) ->
  forallb isSummarizerEvent log = true -> existsb f log = false.
Proof.
  intros Hf.
  induction log as [|e log IH]; simpl; [reflexivity|].
  intro H. apply andb_prop in H. destruct H as [He Hlog].
  rewrite (Hf e He). apply IH. exact Hlog.
Qed.

Lemma summarizer_not_upload e : isSummarizerEvent e = true -> isUpload e = false.
Proof. destruct e; simpl; intro; congruence. Qed.
Lemma summarizer_not_fetch e :
  isSummarizerEvent e = true -> isFetchArticles e = false.
Proof. destruct e; simpl; intro; congruence. Qed.
Lemma summarizer_not_render e :
  isSummarizerEvent e = true -> isRenderRequest e = false.
Proof. destruct e; simpl; intro; congruence. Qed.

Variable env : Env.t.
Variables (text : JsString) (maxLength : Z).

Lemma attemptBody_events n le :
  forallb isSummarizerEvent (snd (attemptBody env text maxLength n le)) = true.
Proof.
  destruct (attemptBody_log env text maxLength n le) as (r & rest & -> & H).
  destruct H as [->|[-> _]]; reflexivity.
Qed.

Lemma summarizeLoop_events : forall remaining attempt le,
  forallb isSummarizerEvent
          (snd (summarizeLoop env text maxLength remaining attempt le)) = true.
Proof.
  induction remaining as [|remaining IH]; intros attempt le; [reflexivity|].
  pose proof (attemptBody_events attempt le) as H.
  destruct (attemptBody env text maxLength attempt le) as [r log] eqn:E.
  rewrite (summarizeLoop_step _ _ _ _ _ _ _ _ E).
  destruct r as [[[s|] le']|e]; cbn [snd] in *; try exact H.
  rewrite forallb_app, H, IH. reflexivity.
Qed.

Lemma summarize_events :
  forallb isSummarizerEvent (snd (summarize env text maxLength)) = true.
Proof.
  unfold summarize. destruct (truthy (Env.apiKey env)); cbn [negb];
    [|reflexivity].
  apply summarizeLoop_events.
Qed.

End Logs.

(* ===================================================================== *)
(** ** The orchestrator *)

Arguments summarize : simpl never.
Arguments Store.updateJobStatus : simpl never.
Arguments Store.getJobById : simpl never.
Arguments Store.createArticle : simpl never.
Arguments Store.createSummary : simpl never.
Arguments Store.createAudio : simpl never.
Arguments Store.createVideo : simpl never.
Arguments generateHash : simpl never.
Arguments wordCount : simpl never.
Arguments js : simpl never.
Arguments showInt : simpl never.

(** What a run depends on is asked for when the run reaches it: a known
    answer is used, an unknown one splits the path. *)
Ltac ask t :=
  first [ match goal with H : t = _ |- _ => rewrite H end
        | let E := fresh "E" in destruct t eqn:E ].

Ltac ask_summarize e t m :=
  let H := fresh "Hsum" in
  pose proof (summarize_events e t m) as H;
  first [ match goal with
          | K : summarize e t m = _ |- _ => rewrite K in H |- *
          end
        | destruct (summarize e t m) as [[?|?] ?] ];
  cbn [snd] in H.

Ltac pipeline_step :=
  first
    [ progress cbn -[Z.mul Z.leb Z.eqb]
    | rewrite getJobById_update
    | match goal with
      | H : storeReliable ?e |- context [Env.storeFault ?e ?n] => rewrite (H n)
      | |- context [Env.storeFault ?e ?n] => ask (Env.storeFault e n)
      | |- context [option_map ?f (Store.getJobById ?j ?s)] =>
          ask (Store.getJobById j s)
      | |- context [Env.fetchArticles ?e] => ask (Env.fetchArticles e)
      | |- context [match ?l with [] => _ | _ :: _ => _ end] => destruct l
      | |- context [summarize ?e ?t ?m] => ask_summarize e t m
      | |- context [Env.ttsFetch ?e] => ask (Env.ttsFetch e)
      | |- context [Env.renderFetch ?e] => ask (Env.renderFetch e)
      | |- context [Response.ok ?r] => ask (Response.ok r)
      | |- context [Response.json ?r] => ask (Response.json r)
      | |- context [whenTruthy (RenderJson.urlMp4 ?r)] =>
          ask (whenTruthy (RenderJson.urlMp4 r))
      | |- context [Job.autoPublish ?j] => ask (Job.autoPublish j)
      | |- context [Env.uploadVideo ?e] => ask (Env.uploadVideo e)
      end ].

(** Run the pipeline along every path; the property of the run is kept
    folded while the run is computed, and stated of the outcome of each
    path at its end. *)
Ltac pipeline :=
  match goal with
  | |- context [run ?e ?j ?s] => pattern (run e j s)
  end;
  match goal with
  | |- ?P ?r => let Q := fresh "Q" in
      remember P as Q eqn:HQ; symmetry in HQ; unfold run
  end;
  unfold processJob, processJobTry, updateJobStatus, getJobById,
    createArticle, createSummary, createAudio, createVideo, storeCall, call,
    fetchArticles, generateTTS, renderVideo, publishVideo, uploadVideo,
    World.start;
  repeat pipeline_step;
  match goal with
  | HQ : _ = ?Q |- ?Q _ => rewrite <- HQ; clear HQ Q
  end;
  cbn [fst snd traceOf storeOf World.trace World.store].

(** The store writes of the log at the end of a path. *)
Ltac read_writes :=
  repeat first
    [ rewrite storeWrites_app
    | progress cbn [storeWrites app]
    | match goal with
      | H : forallb isSummarizerEvent ?l = true |- context [storeWrites ?l] =>
          rewrite (storeWrites_summarizer l H)
      end ];
  cbn [app statusWrites artifactsWritten progressValues].

(** Every run has one shape: a prefix of the planned status writes, then
    at most the write of [failed]. *)
Lemma run_shape (env : Env.t) (jobId : JsString) (st : Store.t) :
  shape env jobId (traceOf (run env jobId st)).
Proof.
  pipeline.
  all: unfold shape; read_writes.
  all: split; [reflexivity|].
  all: split; [intro H; first [discriminate H | eexists; eassumption]|].
  all: split; [intro H; first [discriminate H | congruence]|].
  all: split; [first [ intros; eexists; reflexivity
                     | intros ? [<-|[]] ?; discriminate
                     | intros ? [] ]|].
  all: split; [|reflexivity].
  all: intros ? Hin; cbn in Hin;
           repeat (destruct Hin as [Hin|Hin]; try discriminate);
           try contradiction; injection Hin as <-; reflexivity.
Qed.









(** What is known of the log of the summarizer, in the form the
    observations of a run need. *)
Ltac summarizer_facts :=
  repeat match goal with
         | H : forallb isSummarizerEvent ?l = true |- _ =>
             pose proof (storeWrites_summarizer l H);
             pose proof (count_summarizer isUpload l summarizer_not_upload H);
             pose proof (count_summarizer isFetchArticles l summarizer_not_fetch H);
             pose proof (existsb_summarizer isRenderRequest l summarizer_not_render H);
             clear H
         end.

Lemma count_cons f e log :
  count f (e :: log) = ((if f e then 1 else 0) + count f log)%nat.
Proof. unfold count. cbn [filter]. destruct (f e); reflexivity. Qed.

(** Reading the observations off the log and the store at the end of a
    path. *)
Ltac observe :=
  repeat first
    [ rewrite storeWrites_app
    | rewrite count_app
    | rewrite count_cons
    | rewrite existsb_app
    | progress cbn [storeWrites app existsb isRenderRequest isUpload
                    isFetchArticles orb Nat.add]
    | match goal with
      | H : storeWrites ?l = [] |- context [storeWrites ?l] => rewrite H
      | H : count ?f ?l = 0%nat |- context [count ?f ?l] => rewrite H
      | H : existsb ?f ?l = false |- context [existsb ?f ?l] => rewrite H
      end ];
  unfold statusOf, progressOf, errorOf;
  autorewrite with store;
  repeat match goal with
         | H : Store.getJobById ?j ?s = _ |- context [Store.getJobById ?j ?s] =>
             rewrite H
         end;
  cbn [app statusWrites artifactsWritten progressValues statusesWritten map
       option_map Store.setStatus Job.status Job.progress Job.error fst snd].

Ltac unreliable :=
  match goal with
  | H : storeReliable ?e, E : Env.storeFault ?e ?n = Some _ |- _ =>
      rewrite (H n) in E; discriminate E
  end.

(** C5, as the code has it.  A job whose article source returns an empty
    list: the source is
    asked once and not again, nothing is persisted for the job, and with
    the store accepting its calls the run ends with status [failed] and
    the message "No articles found" recorded. *)
Theorem processJob_no_articles
        (env : Env.t) (jobId : JsString) (st : Store.t) (job : Job.t) :
  Store.getJobById jobId st = Some job ->
  Env.fetchArticles env = Ok [] ->
  (artifactsWritten (storeWrites (traceOf (run env jobId st))) = []
   /\ articlesOf jobId (storeOf (run env jobId st)) = articlesOf jobId st
   /\ summariesOf jobId (storeOf (run env jobId st)) = summariesOf jobId st
   /\ audiosOf jobId (storeOf (run env jobId st)) = audiosOf jobId st
   /\ videosOf jobId (storeOf (run env jobId st)) = videosOf jobId st
   /\ (count isFetchArticles (traceOf (run env jobId st)) <= 1)%nat)
  /\ (storeReliable env ->
      fst (run env jobId st) = Ok tt
      /\ count isFetchArticles (traceOf (run env jobId st)) = 1%nat
      /\ statusWrites (storeWrites (traceOf (run env jobId st)))
         = [(Running, Some 10); (Failed, None)]
      /\ statusOf jobId (storeOf (run env jobId st)) = Some Failed
      /\ errorOf jobId (storeOf (run env jobId st))
         = Some (Some (js "No articles found"))).
Proof.
  intros Hjob Hfetch.
  pipeline.
  all: split; [repeat split; observe; first [reflexivity | cbn; lia] |].
  all: intro Hrel; try unreliable.
  all: repeat split; observe; reflexivity.
Qed.

Lemma processJob_no_articles_witness :
  statusOf Scenario.jobId
           (storeOf (run Scenario.noArticles Scenario.jobId (Scenario.store false)))
  = Some Failed
  /\ errorOf Scenario.jobId
             (storeOf (run Scenario.noArticles Scenario.jobId (Scenario.store false)))
     = Some (Some (js "No articles found")).
Proof.
  destruct (processJob_no_articles Scenario.noArticles Scenario.jobId
              (Scenario.store false) (Scenario.job false) eq_refl eq_refl)
    as (_ & H).
  destruct (H (fun n => eq_refl)) as (_ & _ & _ & Hstatus & Herror).
  split; [exact Hstatus | exact Herror].
Defined.

(** C5, as stated, fails: the article source returns an empty list and the
    store rejects the write of [failed] in the catch block; [processJob]
    rejects, and the job is left [running] with no message recorded. *)
Lemma processJob_no_articles_left_running :
  Store.getJobById Scenario.jobId (Scenario.store false)
  = Some (Scenario.job false)
  /\ Env.fetchArticles (rejectingCall 2 Scenario.noArticles) = Ok []
  /\ fst (run (rejectingCall 2 Scenario.noArticles) Scenario.jobId
              (Scenario.store false))
     = Throw (newError (js "connection refused"))
  /\ statusOf Scenario.jobId
       (storeOf (run (rejectingCall 2 Scenario.noArticles) Scenario.jobId
                     (Scenario.store false)))
     = Some Running
  /\ errorOf Scenario.jobId
       (storeOf (run (rejectingCall 2 Scenario.noArticles) Scenario.jobId
                     (Scenario.store false)))
     = Some None
  /\ statusOf Scenario.jobId
       (storeOf (run (rejectingCall 2 Scenario.noArticles) Scenario.jobId
                     (Scenario.store false)))
     <> Some Failed.
Proof.
  split; [reflexivity|]. split; [reflexivity|].
  split; [vm_compute; reflexivity|].
  split; [vm_compute; reflexivity|].
  split; [vm_compute; reflexivity|].
  vm_compute. discriminate.
Qed.

(** Splitting the hypothesis that a service responds with a JSON body. *)
Ltac responds H :=
  match type of H with
  | renderResponds ?e = Some _ =>
      unfold renderResponds in H;
      let r := fresh "response" in
      destruct (Env.renderFetch e) as [?|r] eqn:?; [discriminate H|];
      destruct (Response.ok r) eqn:?; [|discriminate H];
      destruct (Response.json r) eqn:?; [|discriminate H];
      injection H as ->
  | ttsResponds ?e = Some _ =>
      unfold ttsResponds in H;
      let r := fresh "response" in
      destruct (Env.ttsFetch e) as [?|r] eqn:?; [discriminate H|];
      destruct (Response.ok r) eqn:?; [|discriminate H];
      destruct (Response.json r) eqn:?; [|discriminate H];
      injection H as ->
  end.

(** C6, as the code has it.  A job whose render service answers with an ok
    status and a body
    without [urlMp4]: the render stage fails.  The Article, the Summary and
    the Audio persisted before it stay in place, no Video is persisted, and
    with the store accepting its calls the run ends with status [failed],
    progress 75 and the message of [renderVideo] recorded. *)
Theorem processJob_render_incomplete
        (env : Env.t) (jobId : JsString) (st : Store.t) (job : Job.t)
        (render : RenderJson.t) :
  Store.getJobById jobId st = Some job ->
  renderResponds env = Some render ->
  whenTruthy (RenderJson.urlMp4 render) = None ->
  existsb isRenderRequest (traceOf (run env jobId st)) = true ->
  artifactsWritten (storeWrites (traceOf (run env jobId st)))
  = [KArticle; KSummary; KAudio]
  /\ (exists article summary audio,
        articlesOf jobId (storeOf (run env jobId st))
        = articlesOf jobId st ++ [article]
        /\ summariesOf jobId (storeOf (run env jobId st))
           = summariesOf jobId st ++ [summary]
        /\ audiosOf jobId (storeOf (run env jobId st))
           = audiosOf jobId st ++ [audio])
  /\ videosOf jobId (storeOf (run env jobId st)) = videosOf jobId st
  /\ (storeReliable env ->
      fst (run env jobId st) = Ok tt
      /\ statusWrites (storeWrites (traceOf (run env jobId st)))
         = [(Running, Some 10); (Running, Some 25); (Running, Some 50);
            (Running, Some 75); (Failed, None)]
      /\ statusOf jobId (storeOf (run env jobId st)) = Some Failed
      /\ progressOf jobId (storeOf (run env jobId st)) = Some 75
      /\ errorOf jobId (storeOf (run env jobId st))
         = Some (Some (js "Video service did not return urlMp4"))).
Proof.
  intros Hjob Hrender Hurl Hreach.
  responds Hrender.
  revert Hreach. pipeline.
  all: summarizer_facts.
  all: intro Hreach;
    try (exfalso; revert Hreach; observe; cbn; discriminate).
  all: split; [observe; reflexivity|].
  all: split; [do 3 eexists; repeat split; observe; reflexivity|].
  all: split; [observe; reflexivity|].
  all: intro Hrel; try unreliable.
  all: repeat split; observe; reflexivity.
Qed.

Lemma processJob_render_incomplete_witness :
  statusOf Scenario.jobId
    (storeOf (run Scenario.renderIncomplete Scenario.jobId (Scenario.store false)))
  = Some Failed
  /\ videosOf Scenario.jobId
       (storeOf (run Scenario.renderIncomplete Scenario.jobId (Scenario.store false)))
     = [].
Proof.
  destruct (processJob_render_incomplete Scenario.renderIncomplete
              Scenario.jobId (Scenario.store false) (Scenario.job false) _
              eq_refl eq_refl eq_refl eq_refl)
    as (_ & _ & Hvideo & H).
  destruct (H (fun n => eq_refl)) as (_ & _ & Hstatus & _).
  split; [exact Hstatus | exact Hvideo].
Defined.

(** C6, as stated, fails: the render service answers 200 with a body
    without [urlMp4] and the store rejects the write of [failed] in the
    catch block; [processJob] rejects, and the job is left [running] at
    progress 75 with no message recorded. *)
Lemma processJob_render_incomplete_left_running :
  Store.getJobById Scenario.jobId (Scenario.store false)
  = Some (Scenario.job false)
  /\ (exists render,
        renderResponds (rejectingCall 8 Scenario.renderIncomplete) = Some render
        /\ whenTruthy (RenderJson.urlMp4 render) = None)
  /\ existsb isRenderRequest
       (traceOf (run (rejectingCall 8 Scenario.renderIncomplete) Scenario.jobId
                     (Scenario.store false)))
     = true
  /\ fst (run (rejectingCall 8 Scenario.renderIncomplete) Scenario.jobId
              (Scenario.store false))
     = Throw (newError (js "connection refused"))
  /\ statusOf Scenario.jobId
       (storeOf (run (rejectingCall 8 Scenario.renderIncomplete) Scenario.jobId
                     (Scenario.store false)))
     = Some Running
  /\ progressOf Scenario.jobId
       (storeOf (run (rejectingCall 8 Scenario.renderIncomplete) Scenario.jobId
                     (Scenario.store false)))
     = Some 75
  /\ errorOf Scenario.jobId
       (storeOf (run (rejectingCall 8 Scenario.renderIncomplete) Scenario.jobId
                     (Scenario.store false)))
     = Some None
  /\ statusOf Scenario.jobId
       (storeOf (run (rejectingCall 8 Scenario.renderIncomplete) Scenario.jobId
                     (Scenario.store false)))
     <> Some Failed.
Proof.
  split; [reflexivity|].
  split; [eexists; split; reflexivity|].
  split; [vm_compute; reflexivity|].
  split; [vm_compute; reflexivity|].
  split; [vm_compute; reflexivity|].
  split; [vm_compute; reflexivity|].
  split; [vm_compute; reflexivity|].
  vm_compute. discriminate.
Qed.

Ltac summarized H :=
  match type of H with
  | fst (summarize ?e ?t ?m) = Ok _ =>
      unfold summaryInput in H; cbn [app] in H;
      match type of H with
      | fst (summarize ?e ?t ?m) = Ok _ =>
          destruct (summarize e t m) as [[?|?] ?] eqn:?;
          [cbn [fst] in H; injection H as -> | discriminate H]
      end
  end.

(** C4. A job with auto-publish off, every service succeeding (a
    non-empty list of articles, a summary, a speech synthesis response, a
    render response with [urlMp4]) and the store accepting every call:
    [processJob] returns with status [completed] and progress 100, having
    written, in this order, one Article, one Summary, one Audio and one
    Video for the job between its status updates, and having made no
    publish call. *)
Theorem processJob_happy_path
        (env : Env.t) (jobId : JsString) (st : Store.t) (job : Job.t)
        (first : GNewsArticle.t) (others : list GNewsArticle.t)
        (summaryText : JsString) (tts : TtsJson.t) (render : RenderJson.t)
        (urlMp4 : JsString) :
  Store.getJobById jobId st = Some job ->
  Job.autoPublish job = false ->
  storeReliable env ->
  Env.fetchArticles env = Ok (first :: others) ->
  fst (summarize env (summaryInput first) (Job.targetLength job)) = Ok summaryText ->
  ttsResponds env = Some tts ->
  renderResponds env = Some render ->
  whenTruthy (RenderJson.urlMp4 render) = Some urlMp4 ->
  exists article summary audio video,
    fst (run env jobId st) = Ok tt
    /\ statusOf jobId (storeOf (run env jobId st)) = Some Completed
    /\ progressOf jobId (storeOf (run env jobId st)) = Some 100
    /\ errorOf jobId (storeOf (run env jobId st)) = Some None
    /\ storeWrites (traceOf (run env jobId st))
       = pipelineWrites jobId article summary audio video
    /\ artifactsWritten (storeWrites (traceOf (run env jobId st)))
       = [KArticle; KSummary; KAudio; KVideo]
    /\ (Article.jobId article = jobId /\ Summary.jobId summary = jobId
        /\ Audio.jobId audio = jobId /\ Video.jobId video = jobId)
    /\ (Summary.text summary = summaryText
        /\ Video.urlMp4 video = urlMp4)
    /\ articlesOf jobId (storeOf (run env jobId st)) = articlesOf jobId st ++ [article]
    /\ summariesOf jobId (storeOf (run env jobId st)) = summariesOf jobId st ++ [summary]
    /\ audiosOf jobId (storeOf (run env jobId st)) = audiosOf jobId st ++ [audio]
    /\ videosOf jobId (storeOf (run env jobId st)) = videosOf jobId st ++ [video]
    /\ count isUpload (traceOf (run env jobId st)) = 0%nat.
Proof.
  intros Hjob Hauto Hrel Hfetch Hsummary Htts Hrender Hurl.
  summarized Hsummary. responds Htts. responds Hrender.
  pipeline. summarizer_facts.
  do 4 eexists.
  repeat split; observe; reflexivity.
Qed.

Lemma processJob_happy_path_witness :
  statusOf Scenario.jobId
    (storeOf (run (Scenario.allWell Scenario.uploaded) Scenario.jobId
                  (Scenario.store false)))
  = Some Completed
  /\ progressOf Scenario.jobId
       (storeOf (run (Scenario.allWell Scenario.uploaded) Scenario.jobId
                     (Scenario.store false)))
     = Some 100
  /\ artifactsWritten
       (storeWrites (traceOf (run (Scenario.allWell Scenario.uploaded)
                                  Scenario.jobId (Scenario.store false))))
     = [KArticle; KSummary; KAudio; KVideo]
  /\ count isUpload
       (traceOf (run (Scenario.allWell Scenario.uploaded) Scenario.jobId
                     (Scenario.store false)))
     = 0%nat.
Proof.
  destruct (processJob_happy_path (Scenario.allWell Scenario.uploaded)
              Scenario.jobId (Scenario.store false) (Scenario.job false)
              Scenario.article [] (js "Delegates met.") _ _ (js "/video/1.mp4")
              eq_refl eq_refl (fun n => eq_refl) eq_refl eq_refl eq_refl
              eq_refl eq_refl)
    as (article & summary & audio & video & _ & Hstatus & Hprogress & _
        & _ & Hartifacts & _ & _ & _ & _ & _ & _ & Hupload).
  repeat split; assumption.
Defined.

(** C1, as the code has it.  Take a job of the store, the store accepting
    every call, and a run that has written [completed] with progress 100.
    The run returns normally and progress stays 100.  When auto-publish is
    set and the upload is rejected, the rejection is caught like a stage
    failure: [failed] is written over [completed] with the message of the
    rejection, after exactly one upload attempt.  Otherwise (auto-publish
    off, or the upload resolves) the status stays [completed] and nothing
    is written after it. *)
Theorem processJob_publish_outcome
        (env : Env.t) (jobId : JsString) (st : Store.t) (job : Job.t) :
  Store.getJobById jobId st = Some job ->
  storeReliable env ->
  In (Completed, Some 100)
     (statusWrites (storeWrites (traceOf (run env jobId st)))) ->
  fst (run env jobId st) = Ok tt
  /\ progressOf jobId (storeOf (run env jobId st)) = Some 100
  /\ match publishFails env job with
     | Some e =>
         statusOf jobId (storeOf (run env jobId st)) = Some Failed
         /\ errorOf jobId (storeOf (run env jobId st))
            = Some (Some (messageOrUnknown e))
         /\ statusWrites (storeWrites (traceOf (run env jobId st)))
            = plannedStatusWrites ++ [(Failed, None)]
         /\ count isUpload (traceOf (run env jobId st)) = 1%nat
     | None =>
         statusOf jobId (storeOf (run env jobId st)) = Some Completed
         /\ errorOf jobId (storeOf (run env jobId st)) = Some None
         /\ statusWrites (storeWrites (traceOf (run env jobId st)))
            = plannedStatusWrites
     end.
Proof.
  intros Hjob Hrel Hdone. revert Hdone.
  pipeline.
  all: summarizer_facts.
  all: observe; cbn [In]; intro Hdone.
  all: try (exfalso;
            repeat (destruct Hdone as [Hdone|Hdone]; try discriminate Hdone);
            contradiction).
  all: unfold publishFails;
    repeat match goal with
           | E : ?x = _ |- context [?x] => rewrite E
           end;
    repeat split; observe; reflexivity.
Qed.

Lemma processJob_publish_outcome_witness :
  statusOf Scenario.jobId
    (storeOf (run (Scenario.allWell Scenario.quotaExceeded) Scenario.jobId
                  (Scenario.store true)))
  = Some Failed
  /\ errorOf Scenario.jobId
       (storeOf (run (Scenario.allWell Scenario.quotaExceeded) Scenario.jobId
                     (Scenario.store true)))
     = Some (Some (js "quotaExceeded")).
Proof.
  assert (Hdone : In (Completed, Some 100)
            (statusWrites (storeWrites (traceOf
               (run (Scenario.allWell Scenario.quotaExceeded) Scenario.jobId
                    (Scenario.store true)))))).
  { vm_compute. do 4 right. left. reflexivity. }
  destruct (processJob_publish_outcome
              (Scenario.allWell Scenario.quotaExceeded) Scenario.jobId
              (Scenario.store true) (Scenario.job true)
              eq_refl (fun n => eq_refl) Hdone)
    as (_ & _ & Hstatus & Herror & _).
  split; [exact Hstatus | exact Herror].
Defined.

(** C1, as stated, fails: the five stages succeed, [completed] is written
    with progress 100, the upload is rejected, and the status the run
    leaves in the store is [failed], not [completed]. *)
Lemma processJob_publish_failure_overwrites_completed :
  In (Completed, Some 100)
     (statusWrites (storeWrites (traceOf
        (run (Scenario.allWell Scenario.quotaExceeded) Scenario.jobId
             (Scenario.store true)))))
  /\ Env.uploadVideo (Scenario.allWell Scenario.quotaExceeded)
     = Throw (newError (js "quotaExceeded"))
  /\ statusOf Scenario.jobId
       (storeOf (run (Scenario.allWell Scenario.quotaExceeded) Scenario.jobId
                     (Scenario.store true)))
     = Some Failed
  /\ statusOf Scenario.jobId
       (storeOf (run (Scenario.allWell Scenario.quotaExceeded) Scenario.jobId
                     (Scenario.store true)))
     <> Some Completed.
Proof.
  split; [vm_compute; do 4 right; left; reflexivity|].
  split; [reflexivity|].
  split; [vm_compute; reflexivity|].
  vm_compute. discriminate.
Qed.

(** C10. The word count stored with a Summary is the number of pieces
    of [text.split(/\s+/)]; it is at least 1 for every text: 1 for the
    empty text and 2 for a text of white space only. *)
Theorem summary_word_count (env : Env.t) (jobId : JsString) (st : Store.t) :
  (forall s,
     In (WSummary s) (storeWrites (traceOf (run env jobId st))) ->
     Summary.wordCount s
     = Z.of_nat (List.length (splitWhiteSpace (Summary.text s)))
     /\ 1 <= Summary.wordCount s)
  /\ (forall text, 1 <= wordCount text)
  /\ wordCount [] = 1
  /\ (forall text, text <> [] -> forallb isWhiteSpace text = true ->
        wordCount text = 2).
Proof.
  split; [|split; [exact wordCount_positive|split; [reflexivity|]]].
  - intros s Hin.
    destruct (run_shape env jobId st) as (_ & _ & _ & _ & Hcount & _).
    rewrite (Hcount s Hin). split; [reflexivity|apply wordCount_positive].
  - intros text Hne Hall. unfold wordCount.
    rewrite (splitWhiteSpace_blank text Hne Hall). reflexivity.
Qed.

Lemma summary_word_count_witness :
  Summary.wordCount
    {| Summary.jobId := Scenario.jobId; Summary.text := js "Delegates met.";
       Summary.wordCount := 2; Summary.language := js "en" |}
  = Z.of_nat (List.length (splitWhiteSpace (js "Delegates met.")))
  /\ 1 <= 2.
Proof.
  apply (summary_word_count (Scenario.allWell Scenario.uploaded)
           Scenario.jobId (Scenario.store false)).
  vm_compute. do 3 right. left. reflexivity.
Defined.

(* ===================================================================== *)
(** * Further properties *)
(* ===================================================================== *)

(* ===================================================================== *)
(** ** More on the fingerprint *)

Section Polynomial.

Lemma toInt32_eqm x y : x mod 2 ^ 32 = y mod 2 ^ 32 -> toInt32 x = toInt32 y.
Proof.
  intro H. unfold toInt32.
  rewrite <- (Zplus_mod_idemp_l x), <- (Zplus_mod_idemp_l y), H. reflexivity.
Qed.

Lemma toInt32_mod x : toInt32 x mod 2 ^ 32 = x mod 2 ^ 32.
Proof.
  unfold toInt32.
  rewrite <- Zminus_mod_idemp_l, Z.mod_mod by lia.
  rewrite Zminus_mod_idemp_l. f_equal. lia.
Qed.

(** Wrapping the accumulator before a step changes nothing after it. *)
Lemma toInt32_horner x char :
  toInt32 (31 * toInt32 x + char) = toInt32 (31 * x + char).
Proof.
  apply toInt32_eqm.
  rewrite <- (Zplus_mod_idemp_l (31 * toInt32 x)), <- (Zplus_mod_idemp_l (31 * x)).
  rewrite <- (Zmult_mod_idemp_r (toInt32 x)), toInt32_mod, Zmult_mod_idemp_r.
  reflexivity.
Qed.

Lemma fold_specUpdate content : forall z,
  fold_left specUpdate content (toInt32 z)
  = toInt32 (fold_left (fun hash char => 31 * hash + char) content z).
Proof.
  induction content as [|c content IH]; intro z; cbn [fold_left]; [reflexivity|].
  rewrite specUpdate_31 by apply toInt32_range.
  rewrite toInt32_horner. apply IH.
Qed.

Lemma hashAccumulator_horner content :
  hashAccumulator content = toInt32 (polynomial content).
Proof.
  rewrite hashAccumulator_spec. unfold specAccumulator, polynomial.
  rewrite <- fold_specUpdate. reflexivity.
Qed.

Lemma polynomial_app a b :
  polynomial (a ++ b)
  = fold_left (fun hash char => 31 * hash + char) b (polynomial a).
Proof. unfold polynomial. apply fold_left_app. Qed.

Lemma horner_eqm content : forall x y,
  x mod 2 ^ 32 = y mod 2 ^ 32 ->
  fold_left (fun hash char => 31 * hash + char) content x mod 2 ^ 32
  = fold_left (fun hash char => 31 * hash + char) content y mod 2 ^ 32.
Proof.
  induction content as [|c content IH]; intros x y H; cbn [fold_left]; [exact H|].
  apply IH.
  rewrite <- (Zplus_mod_idemp_l (31 * x)), <- (Zplus_mod_idemp_l (31 * y)).
  rewrite <- (Zmult_mod_idemp_r x), H, Zmult_mod_idemp_r. reflexivity.
Qed.

Lemma horner_from content : forall x,
  fold_left (fun hash char => 31 * hash + char) content x
  = 31 ^ Z.of_nat (List.length content) * x + polynomial content.
Proof.
  unfold polynomial.
  induction content as [|c content IH]; intro x; cbn [fold_left List.length].
  - change (Z.of_nat 0) with 0. lia.
  - rewrite (IH (31 * x + c)), (IH (31 * 0 + c)).
    rewrite Nat2Z.inj_succ, Z.pow_succ_r by lia. lia.
Qed.

End Polynomial.

(** X16. The loop of [generateHash] computes the polynomial in 31 of the
    code units, wrapped to 32 bits once at the end: neither the wrap-around
    of [<<] nor [hash & hash] in each round changes the result.  The
    fingerprint is the hexadecimal numeral of its absolute value, and a
    character appended is one more round. *)
Theorem generateHash_polynomial (content : JsString) :
  hashAccumulator content = toInt32 (polynomial content)
  /\ generateHash content = toString16 (Z.abs (toInt32 (polynomial content)))
  /\ forall char,
       hashAccumulator (content ++ [char])
       = toInt32 (31 * hashAccumulator content + char).
Proof.
  split; [apply hashAccumulator_horner|].
  split; [unfold generateHash; rewrite hashAccumulator_horner; reflexivity|].
  intro char. rewrite !hashAccumulator_horner, polynomial_app.
  cbn [fold_left]. symmetry. apply toInt32_horner.
Qed.

(** X17. Two texts of one length whose polynomials agree modulo 2^32 have
    one fingerprint, and so have the texts they are part of: replacing
    ["Aa"] by ["BB"] anywhere in a text leaves its fingerprint as it is. *)
Theorem generateHash_collision (before after : JsString) :
  (forall a b,
     List.length a = List.length b ->
     polynomial a mod 2 ^ 32 = polynomial b mod 2 ^ 32 ->
     generateHash (before ++ a ++ after) = generateHash (before ++ b ++ after))
  /\ generateHash (before ++ js "Aa" ++ after)
     = generateHash (before ++ js "BB" ++ after)
  /\ before ++ js "Aa" ++ after <> before ++ js "BB" ++ after.
Proof.
  assert (G : forall a b,
     List.length a = List.length b ->
     polynomial a mod 2 ^ 32 = polynomial b mod 2 ^ 32 ->
     generateHash (before ++ a ++ after) = generateHash (before ++ b ++ after)).
  { intros a b Hlen H. unfold generateHash. rewrite !hashAccumulator_horner.
    f_equal. f_equal. apply toInt32_eqm.
    rewrite !app_assoc, !(polynomial_app (_ ++ _) after).
    apply horner_eqm.
    rewrite !polynomial_app, !horner_from, Hlen.
    rewrite <- (Zplus_mod_idemp_r (polynomial a)), H, Zplus_mod_idemp_r.
    reflexivity. }
  split; [exact G|]. split.
  - apply G; reflexivity.
  - intro H. apply app_inv_head in H. discriminate H.
Qed.

(* ===================================================================== *)
(** ** More on [split] *)

Section Split.

(** The run of white space at the head of [s], and what follows it. *)
Lemma whiteSpaceRun_split s :
  forallb isWhiteSpace (firstn (whiteSpaceRun s) s) = true
  /\ match skipn (whiteSpaceRun s) s with
     | [] => True
     | c :: _ => isWhiteSpace c = false
     end.
Proof.
  induction s as [|c s [IH1 IH2]]; cbn [whiteSpaceRun]; [split; [reflexivity|exact I]|].
  destruct (isWhiteSpace c) eqn:E.
  - cbn [firstn skipn forallb]. rewrite E, IH1. split; [reflexivity|exact IH2].
  - cbn [firstn skipn forallb]. split; [reflexivity|exact E].
Qed.

Lemma whiteSpaceRun_le s : (whiteSpaceRun s <= List.length s)%nat.
Proof.
  induction s as [|c s IH]; cbn [whiteSpaceRun List.length]; [lia|].
  destruct (isWhiteSpace c); lia.
Qed.

(** No separator at [q]: the character at [q] is not white space. *)
Lemma matchAt_none str q :
  (q < List.length str)%nat -> matchAt str q = None ->
  exists c, skipn q str = c :: skipn (S q) str /\ isWhiteSpace c = false.
Proof.
  intros Hq H. unfold matchAt in H.
  destruct (skipn q str) as [|c rest] eqn:E.
  - apply (f_equal (@List.length Z)) in E. rewrite length_skipn in E.
    cbn [List.length] in E. lia.
  - exists c. split.
    + f_equal. change (S q) with (1 + q)%nat. rewrite <- skipn_skipn, E. reflexivity.
    + cbn [whiteSpaceRun] in H. destruct (isWhiteSpace c); [discriminate H|reflexivity].
Qed.

(** A separator at [q] that ends at [e]: a run of white space that cannot
    be extended. *)
Lemma matchAt_some str q e :
  matchAt str q = Some e ->
  (q < e <= List.length str)%nat
  /\ exists w run,
       skipn q str = (w :: run) ++ skipn e str
       /\ forallb isWhiteSpace (w :: run) = true
       /\ match skipn e str with
          | [] => True
          | c :: _ => isWhiteSpace c = false
          end.
Proof.
  unfold matchAt. intro H.
  pose proof (whiteSpaceRun_split (skipn q str)) as [Hrun Hnext].
  pose proof (whiteSpaceRun_le (skipn q str)) as Hle.
  rewrite length_skipn in Hle.
  destruct (whiteSpaceRun (skipn q str)) as [|n] eqn:E; [discriminate H|].
  injection H as <-.
  rewrite skipn_skipn in Hnext.
  replace (S n + q)%nat with (q + S n)%nat in Hnext by lia.
  split; [lia|].
  pose proof (firstn_skipn (S n) (skipn q str)) as Hsplit.
  rewrite skipn_skipn in Hsplit.
  replace (S n + q)%nat with (q + S n)%nat in Hsplit by lia.
  destruct (firstn (S n) (skipn q str)) as [|w run] eqn:F.
  - apply (f_equal (@List.length Z)) in F. rewrite length_firstn, length_skipn in F.
    cbn [List.length] in F. lia.
  - exists w, run. split; [symmetry; exact Hsplit|]. split; [exact Hrun|exact Hnext].
Qed.

Lemma slice_skipn str p q :
  (p <= q)%nat -> skipn p str = slice str p q ++ skipn q str.
Proof.
  intro H. unfold slice.
  replace (skipn q str) with (skipn (q - p) (skipn p str)).
  - symmetry. apply firstn_skipn.
  - rewrite skipn_skipn. f_equal. lia.
Qed.

Lemma slice_empty str p : slice str p p = [].
Proof. unfold slice. rewrite Nat.sub_diag. reflexivity. Qed.

Lemma slice_snoc str p q c :
  (p <= q)%nat -> skipn q str = c :: skipn (S q) str ->
  slice str p (q + 1) = slice str p q ++ [c].
Proof.
  intros Hpq Hc.
  pose proof (slice_skipn str p q Hpq) as H1.
  pose proof (slice_skipn str p (q + 1) ltac:(lia)) as H2.
  replace (q + 1)%nat with (S q) in * by lia.
  rewrite Hc in H1. rewrite H1 in H2.
  change (c :: skipn (S q) str) with ([c] ++ skipn (S q) str) in H2.
  rewrite app_assoc in H2. apply app_inv_tail in H2. symmetry. exact H2.
Qed.

Lemma filter_whiteSpace run :
  forallb isWhiteSpace run = true -> filter notWhiteSpace run = [].
Proof.
  induction run as [|c run IH]; cbn [forallb filter]; [reflexivity|].
  intro H. apply andb_prop in H. destruct H as [Hc H].
  unfold notWhiteSpace at 1. rewrite Hc. cbn [negb]. exact (IH H).
Qed.

Lemma whiteSpaceRuns_run run tail :
  forallb isWhiteSpace run = true ->
  whiteSpaceRuns true (run ++ tail) = whiteSpaceRuns true tail.
Proof.
  induction run as [|c run IH]; cbn [forallb app whiteSpaceRuns]; [reflexivity|].
  intro H. apply andb_prop in H. destruct H as [-> H]. exact (IH H).
Qed.

Lemma whiteSpaceRuns_after tail :
  match tail with [] => True | c :: _ => isWhiteSpace c = false end ->
  whiteSpaceRuns true tail = whiteSpaceRuns false tail.
Proof.
  destruct tail as [|c tail]; [reflexivity|].
  cbn [whiteSpaceRuns]. intros ->. reflexivity.
Qed.

(** The pieces collected from [p], with the separator looked for from [q]
    on: the piece under way, then what is left without its white space. *)
Lemma splitLoop_concat str p q :
  (p <= q <= List.length str)%nat ->
  List.concat (splitLoop str p q)
  = slice str p q ++ filter notWhiteSpace (skipn q str).
Proof.
  funelim (splitLoop str p q); intro Hpq.
  - assert (q = List.length str) as -> by lia.
    rewrite skipn_all. cbn [List.concat filter]. reflexivity.
  - match goal with
    | Hq : (q < _)%nat, Hm : matchAt str q = None |- _ =>
        destruct (matchAt_none str q Hq Hm) as (c & Hc & Hws)
    end.
    rewrite H by lia.
    rewrite (slice_snoc str p q c) by (lia || exact Hc).
    replace (q + 1)%nat with (S q) by lia.
    rewrite Hc. cbn [filter]. unfold notWhiteSpace at 2. rewrite Hws.
    cbn [negb]. rewrite <- app_assoc. reflexivity.
  - match goal with
    | Hm : matchAt str q = Some _ |- _ =>
        destruct (matchAt_some str q _ Hm) as (Hlt & _)
    end.
    lia.
  - match goal with
    | Hm : matchAt str q = Some _ |- _ =>
        destruct (matchAt_some str q _ Hm) as (Hlt & w & run & Hrun & Hall & _)
    end.
    cbn [List.concat]. rewrite H by lia.
    rewrite slice_empty. cbn [app].
    rewrite Hrun, filter_app, (filter_whiteSpace _ Hall). reflexivity.
Qed.

Lemma splitLoop_count str p q :
  (p <= q)%nat ->
  List.length (splitLoop str p q) = S (whiteSpaceRuns false (skipn q str)).
Proof.
  funelim (splitLoop str p q); intro Hpq.
  - rewrite skipn_all2 by lia. reflexivity.
  - match goal with
    | Hq : (q < _)%nat, Hm : matchAt str q = None |- _ =>
        destruct (matchAt_none str q Hq Hm) as (c & Hc & Hws)
    end.
    rewrite H by lia. replace (q + 1)%nat with (S q) by lia.
    rewrite Hc. cbn [whiteSpaceRuns]. rewrite Hws. reflexivity.
  - match goal with
    | Hm : matchAt str q = Some _ |- _ =>
        destruct (matchAt_some str q _ Hm) as (Hlt & _)
    end.
    lia.
  - match goal with
    | Hm : matchAt str q = Some _ |- _ =>
        destruct (matchAt_some str q _ Hm) as (Hlt & w & run & Hrun & Hall & Hnext)
    end.
    cbn [List.length]. rewrite H by lia.
    rewrite Hrun. cbn [app whiteSpaceRuns].
    cbn [forallb] in Hall. apply andb_prop in Hall. destruct Hall as [-> Hall].
    rewrite (whiteSpaceRuns_run run _ Hall), (whiteSpaceRuns_after _ Hnext).
    reflexivity.
Qed.

End Split.

(** X18. [text.split(/\s+/)] neither loses nor adds a character: the pieces
    put together are the text with its white space left out; no piece holds
    a white-space character. *)
Theorem splitWhiteSpace_concat (text : JsString) :
  List.concat (splitWhiteSpace text) = filter notWhiteSpace text
  /\ Forall (fun piece => forallb notWhiteSpace piece = true)
            (splitWhiteSpace text).
Proof.
  assert (H : List.concat (splitWhiteSpace text) = filter notWhiteSpace text).
  { destruct text as [|c text]; [reflexivity|].
    cbn [splitWhiteSpace].
    rewrite splitLoop_concat by (cbn [List.length]; lia).
    rewrite slice_empty. reflexivity. }
  split; [exact H|].
  assert (G : Forall (fun c => notWhiteSpace c = true)
                     (List.concat (splitWhiteSpace text))).
  { rewrite H. apply Forall_forall. intros c Hc.
    apply filter_In in Hc. exact (proj2 Hc). }
  rewrite Forall_concat in G.
  apply Forall_impl with (2 := G).
  intros piece Hpiece. apply forallb_forall.
  rewrite Forall_forall in Hpiece. exact Hpiece.
Qed.

(** X19. The word count stored with a summary is one more than the number
    of maximal runs of white space in the text: white space at the start or
    at the end of the text counts as a word of its own. *)
Theorem wordCount_runs (text : JsString) :
  wordCount text = 1 + Z.of_nat (whiteSpaceRuns false text).
Proof.
  unfold wordCount.
  destruct text as [|c text]; [reflexivity|].
  cbn [splitWhiteSpace].
  rewrite splitLoop_count by lia.
  cbn [skipn]. lia.
Qed.

(* ===================================================================== *)
(** ** More on the summarizer *)

Lemma firstSuccess_found fetch : forall attempts from k s,
  firstSuccess fetch attempts from = Some (k, s) ->
  (from <= k < from + attempts)%nat /\ succeeds (fetch k) = Some s
  /\ (forall j, (from <= j < k)%nat -> succeeds (fetch j) = None).
Proof.
  induction attempts as [|attempts IH]; intros from k s H; [discriminate|].
  cbn in H. destruct (succeeds (fetch from)) as [s'|] eqn:Es.
  - injection H as <- <-. repeat split; try lia. exact Es.
  - destruct (IH _ _ _ H) as (Hk & Hs & Hbefore).
    repeat split; try lia; [exact Hs|].
    intros j Hj. destruct (Nat.eq_dec j from) as [->|Hne]; [exact Es|].
    apply Hbefore. lia.
Qed.

Lemma firstSuccess_none fetch : forall attempts from,
  firstSuccess fetch attempts from = None ->
  forall j, (from <= j < from + attempts)%nat -> succeeds (fetch j) = None.
Proof.
  induction attempts as [|attempts IH]; intros from H j Hj; [lia|].
  cbn in H. destruct (succeeds (fetch from)) as [s'|] eqn:Es; [discriminate|].
  destruct (Nat.eq_dec j from) as [->|Hne]; [exact Es|].
  apply (IH _ H). lia.
Qed.

Section SummarizerOutcome.

Variable env : Env.t.
Variables (text : JsString) (maxLength : Z).

Local Abbreviation fetch := (Env.summarizerFetch env).
Local Abbreviation body := (attemptBody env text maxLength).
Local Abbreviation loop := (summarizeLoop env text maxLength).
Local Abbreviation req := (request text maxLength).

(** A pass whose attempt does not succeed goes on to the next pass before
    the fifth attempt and throws at the fifth. *)
Lemma attemptBody_failure n le :
  succeeds (fetch n) = None ->
  exists rest,
    (rest = [] \/ rest = [pause n])
    /\ ((n < 5)%nat -> exists le', body n le = (Ok (Continue, le'), req n :: rest))
    /\ (n = 5%nat -> rest = [] /\ exists e, body n le = (Throw e, [req n])).
Proof.
  unfold attemptBody, attemptTry, attemptCatch, request, pause,
    initialTimeout, succeeds, summaryIn.
  rewrite (Z.mul_comm 30000). intro H.
  destruct (Nat.lt_ge_cases n 5) as [Hn|Hn].
  - attempt_cases; eexists; (split; [|split; [intros _; eexists; reflexivity|lia]]); auto.
  - destruct (Nat.eq_dec n 5) as [->|Hne].
    + attempt_cases; exists []; (split; [auto|split; [lia|intros _; split; [reflexivity|eexists; reflexivity]]]).
    + exists []. split; [auto|split; lia].
Qed.

Lemma succeeds_truthy o s : succeeds o = Some s -> truthy s = true.
Proof.
  unfold succeeds, summaryIn, whenTruthy.
  destruct o as [e|r]; [discriminate|].
  destruct (Response.ok r); [|discriminate].
  destruct (Response.json r) as [[|first|error summary]|]; try discriminate.
  - destruct first as [f|]; [|discriminate].
    destruct (truthy f) eqn:E; [|discriminate]. intro H. injection H as <-. exact E.
  - destruct error as [e|].
    + destruct (truthy e); [discriminate|].
      destruct summary as [f|]; [|discriminate].
      destruct (truthy f) eqn:E; [|discriminate]. intro H. injection H as <-. exact E.
    + destruct summary as [f|]; [|discriminate].
      destruct (truthy f) eqn:E; [|discriminate]. intro H. injection H as <-. exact E.
Qed.

(** The loop returns the summary of the first attempt that succeeds and
    throws when none of the attempts left does. *)
Lemma summarizeLoop_outcome : forall remaining attempt le,
  (attempt + remaining = 6)%nat ->
  match firstSuccess fetch remaining attempt with
  | Some (k, s) =>
      fst (loop remaining attempt le) = Ok s
      /\ summarizerRequests (snd (loop remaining attempt le))
         = map timeoutOf (seq attempt (S k - attempt))
  | None =>
      (exists e, fst (loop remaining attempt le) = Throw e)
      /\ summarizerRequests (snd (loop remaining attempt le))
         = map timeoutOf (seq attempt remaining)
  end.
Proof.
  induction remaining as [|remaining IH]; intros attempt le Hsum.
  - cbn. split; [eexists; reflexivity|reflexivity].
  - cbn [firstSuccess].
    destruct (succeeds (fetch attempt)) as [s|] eqn:Es.
    + rewrite (summarizeLoop_step _ _ _ _ _ _ _ _
                 (attemptBody_success env text maxLength attempt le s Es)).
      cbn [fst snd]. split; [reflexivity|].
      replace (S attempt - attempt)%nat with 1%nat by lia. reflexivity.
    + destruct (attemptBody_failure attempt le Es) as (rest & Hrest & Hlt & Heq).
      assert (R : summarizerRequests (req attempt :: rest) = [timeoutOf attempt]).
      { destruct Hrest as [->| ->]; reflexivity. }
      destruct remaining as [|remaining].
      * assert (attempt = 5%nat) as -> by lia.
        destruct (Heq eq_refl) as (-> & e & E).
        rewrite (summarizeLoop_step _ _ _ _ _ _ _ _ E). cbn [fst snd firstSuccess].
        split; [eexists; reflexivity|reflexivity].
      * destruct (Hlt ltac:(lia)) as (le' & E).
        rewrite (summarizeLoop_step _ _ _ _ _ _ _ _ E). cbn [fst snd].
        specialize (IH (S attempt) le' ltac:(lia)).
        destruct (firstSuccess fetch (S remaining) (S attempt)) as [[k s]|] eqn:Ef.
        -- destruct IH as (Hr & Hreq). split; [exact Hr|].
           rewrite summarizerRequests_app, R, Hreq.
           assert (Hk : (S attempt <= k)%nat)
             by (apply firstSuccess_found in Ef; lia).
           replace (S k - attempt)%nat with (S (S k - S attempt)) by lia.
           reflexivity.
        -- destruct IH as (Hr & Hreq). split; [exact Hr|].
           rewrite summarizerRequests_app, R, Hreq. reflexivity.
Qed.

End SummarizerOutcome.

Lemma firstSuccess_first fetch : forall attempts from k s,
  (from <= k < from + attempts)%nat ->
  succeeds (fetch k) = Some s ->
  (forall j, (from <= j < k)%nat -> succeeds (fetch j) = None) ->
  firstSuccess fetch attempts from = Some (k, s).
Proof.
  induction attempts as [|attempts IH]; intros from k s Hk Hs Hbefore; [lia|].
  cbn. destruct (Nat.eq_dec k from) as [->|Hne].
  - rewrite Hs. reflexivity.
  - rewrite (Hbefore from) by lia. apply IH; [lia|exact Hs|].
    intros j Hj. apply Hbefore. lia.
Qed.

Lemma firstSuccess_never fetch : forall attempts from,
  (forall j, (from <= j < from + attempts)%nat -> succeeds (fetch j) = None) ->
  firstSuccess fetch attempts from = None.
Proof.
  induction attempts as [|attempts IH]; intros from H; [reflexivity|].
  cbn. rewrite (H from) by lia. apply IH. intros j Hj. apply H. lia.
Qed.

(** X1. With a key configured, [summarize] returns the summary of the first
    of its five attempts that succeeds, after exactly that many requests,
    and fails, after five requests, when none of the five succeeds. *)
Theorem summarize_first_success (env : Env.t) (text : JsString) (maxLength : Z) :
  truthy (Env.apiKey env) = true ->
  (forall k s,
     (1 <= k <= 5)%nat ->
     succeeds (Env.summarizerFetch env k) = Some s ->
     (forall j, (1 <= j < k)%nat -> succeeds (Env.summarizerFetch env j) = None) ->
     fst (summarize env text maxLength) = Ok s
     /\ summarizerRequests (snd (summarize env text maxLength))
        = map timeoutOf (seq 1 k))
  /\ ((forall j, (1 <= j <= 5)%nat -> succeeds (Env.summarizerFetch env j) = None) ->
      (exists e, fst (summarize env text maxLength) = Throw e)
      /\ summarizerRequests (snd (summarize env text maxLength))
         = map timeoutOf (seq 1 5)).
Proof.
  intro Hkey. rewrite (summarize_loop env text maxLength Hkey).
  pose proof (summarizeLoop_outcome env text maxLength 5 1 None eq_refl) as H.
  split.
  - intros k s Hk Hs Hbefore.
    rewrite (firstSuccess_first (Env.summarizerFetch env) 5 1 k s) in H;
      [|lia|exact Hs|exact Hbefore].
    replace (S k - 1)%nat with k in H by lia. exact H.
  - intro Hnone.
    rewrite (firstSuccess_never (Env.summarizerFetch env) 5 1) in H; [exact H|].
    intros j Hj. apply Hnone. lia.
Qed.

Lemma summarize_first_success_witness :
  fst (summarize (Scenario.withSummarizer Scenario.once500) (js "Climate talks") 150)
  = Ok (js "Delegates met.")
  /\ summarizerRequests
       (snd (summarize (Scenario.withSummarizer Scenario.once500)
                       (js "Climate talks") 150))
     = map timeoutOf (seq 1 2).
Proof.
  apply (proj1 (summarize_first_success
                  (Scenario.withSummarizer Scenario.once500)
                  (js "Climate talks") 150 eq_refl) 2%nat (js "Delegates met."));
    [lia | reflexivity |].
  intros j Hj. assert (j = 1%nat) as -> by lia. reflexivity.
Defined.

(** X2. A summary [summarize] returns is never the empty string. *)
Theorem summarize_not_empty (env : Env.t) (text : JsString) (maxLength : Z)
        (s : JsString) :
  fst (summarize env text maxLength) = Ok s -> s <> [].
Proof.
  intro H.
  destruct (truthy (Env.apiKey env)) eqn:Hkey.
  - rewrite (summarize_loop env text maxLength Hkey) in H.
    pose proof (summarizeLoop_outcome env text maxLength 5 1 None eq_refl) as F.
    destruct (firstSuccess (Env.summarizerFetch env) 5 1) as [[k s']|] eqn:Ef.
    + destruct F as (F & _). rewrite F in H. injection H as ->.
      assert (T : truthy s = true).
      { apply firstSuccess_found in Ef. destruct Ef as (_ & Es & _).
        exact (succeeds_truthy _ _ Es). }
      intros ->. discriminate T.
    + destruct F as ((e & F) & _). rewrite F in H. discriminate H.
  - rewrite (summarize_without_key env text maxLength Hkey) in H. discriminate H.
Qed.

Lemma summarize_not_empty_witness : js "Delegates met." <> [].
Proof.
  exact (summarize_not_empty (Scenario.withSummarizer Scenario.twice504)
           (js "Climate talks") 150 (js "Delegates met.") eq_refl).
Defined.


Section SummarizerBudget.

Variable env : Env.t.
Variables (text : JsString) (maxLength : Z).

Lemma pauses_app a b : pauses (a ++ b) = pauses a ++ pauses b.
Proof.
  induction a as [|e a IH]; simpl; [reflexivity|].
  destruct e; simpl; rewrite ?IH; reflexivity.
Qed.

Lemma total_app a b : total (a ++ b) = total a + total b.
Proof. unfold total. induction a as [|x a IH]; simpl; [reflexivity|]. lia. Qed.

(** The fifth pass never ends with the next iteration. *)
Lemma attemptBody_last le le' log :
  attemptBody env text maxLength 5 le = (Ok (Continue, le'), log) -> False.
Proof.
  unfold attemptBody, attemptTry, attemptCatch.
  attempt_cases.
Qed.

(** The pauses of the loop from attempt [a] add up to at most
    [2000 * (a + ... + 4)], and its last event is a request. *)
Lemma summarizeLoop_budget : forall remaining attempt le,
  (attempt + S remaining = 6)%nat ->
  0 <= total (pauses (snd (summarizeLoop env text maxLength (S remaining) attempt le)))
    <= 1000 * (4 + Z.of_nat attempt) * (5 - Z.of_nat attempt)
  /\ exists before n,
       snd (summarizeLoop env text maxLength (S remaining) attempt le)
       = before ++ [request text maxLength n].
Proof.
  induction remaining as [|remaining IH]; intros attempt le Hsum;
    destruct (attemptBody_log env text maxLength attempt le) as (r & rest & E & Hrest);
    rewrite (summarizeLoop_step _ _ _ _ _ _ _ _ E).
  - assert (attempt = 5%nat) as -> by lia.
    destruct r as [[[s|] le']|e]; cbn [snd].
    + destruct Hrest as [->|[_ [le0 H]]]; [|discriminate H].
      split; [cbn [pauses request total fold_right]; change (Z.of_nat 5) with 5; lia|].
      exists [], 5%nat. reflexivity.
    + exfalso. exact (attemptBody_last _ _ _ E).
    + destruct Hrest as [->|[_ [le0 H]]]; [|discriminate H].
      split; [cbn [pauses request total fold_right]; change (Z.of_nat 5) with 5; lia|].
      exists [], 5%nat. reflexivity.
  - assert (Ha : (attempt <= 4)%nat) by lia.
    destruct r as [[[s|] le']|e]; cbn [snd].
    + destruct Hrest as [->|[_ [le0 H]]]; [|discriminate H].
      split; [cbn [pauses request total fold_right]; nia|].
      exists [], attempt. reflexivity.
    + destruct (IH (S attempt) le' ltac:(lia)) as (Hb & before & n & Hlast).
      split.
      * rewrite pauses_app, total_app.
        assert (P : 0 <= total (pauses (request text maxLength attempt :: rest))
                      <= 2000 * Z.of_nat attempt).
        { destruct Hrest as [->|[-> _]];
            cbn [pauses request pause total fold_right]; lia. }
        rewrite Nat2Z.inj_succ in Hb. nia.
      * rewrite Hlast. exists ((request text maxLength attempt :: rest) ++ before), n.
        rewrite <- app_assoc. reflexivity.
    + destruct Hrest as [->|[_ [le0 H]]]; [|discriminate H].
      split; [cbn [pauses request total fold_right]; nia|].
      exists [], attempt. reflexivity.
Qed.

End SummarizerBudget.

(** X3. With a key configured, the pauses of one call of [summarize] add
    up to at most 20000 ms and its request timeouts to at most 450000 ms,
    and the last thing the call does is a request: it never pauses after
    its final attempt. *)
Theorem summarize_time_budget (env : Env.t) (text : JsString) (maxLength : Z) :
  truthy (Env.apiKey env) = true ->
  0 <= total (pauses (snd (summarize env text maxLength))) <= 20000
  /\ total (map snd (summarizerRequests (snd (summarize env text maxLength))))
     <= 450000
  /\ exists before n,
       snd (summarize env text maxLength) = before ++ [request text maxLength n].
Proof.
  intro Hkey. rewrite (summarize_loop env text maxLength Hkey).
  destruct (summarizeLoop_budget env text maxLength 4 1 None eq_refl) as (Hb & Hlast).
  split; [change (Z.of_nat 1) with 1 in Hb; lia|]. split; [|exact Hlast].
  destruct (summarizeLoop_requests env text maxLength 5 1 None) as (k & Hk & _ & ->).
  do 6 (destruct k as [|k]; [cbn; lia|]). lia.
Qed.

Lemma summarize_time_budget_witness :
  0 <= total (pauses (snd (summarize (Scenario.withSummarizer Scenario.twice504)
                                     (js "Climate talks") 150))) <= 20000.
Proof.
  exact (proj1 (summarize_time_budget (Scenario.withSummarizer Scenario.twice504)
                  (js "Climate talks") 150 eq_refl)).
Defined.

(* ===================================================================== *)
(** ** More on the health check *)

(** X4. With a key configured, the boolean a call of [checkHealth] returns
    is the value the cache holds after the call; the call makes at most one
    request, and the time of the cache is either left as it was or set to
    the time the call started. *)
Theorem checkHealth_answer_is_cached
        (env : Env.t) (now : Z) (remote : FetchOutcome HfJson)
        (cache : HealthCache.t) :
  truthy (Env.apiKey env) = true ->
  answer (checkHealth env now remote cache)
  = HealthCache.lastHealthCheck (cacheAfter (checkHealth env now remote cache))
  /\ (remoteCalls (checkHealth env now remote cache) <= 1)%nat
  /\ (HealthCache.lastHealthCheckTime (cacheAfter (checkHealth env now remote cache))
      = HealthCache.lastHealthCheckTime cache
      \/ HealthCache.lastHealthCheckTime (cacheAfter (checkHealth env now remote cache))
         = now).
Proof.
  intro key. unfold checkHealth. rewrite key. cbn [negb].
  destruct (now - HealthCache.lastHealthCheckTime cache <? healthCheckCacheDuration).
  - cbn. auto.
  - destruct remote as [e|r].
    + destruct (isAbortError e && HealthCache.lastHealthCheck cache); cbn; auto.
    + cbn. auto.
Qed.

Lemma checkHealth_answer_is_cached_witness :
  answer (checkHealth (Scenario.allWell Scenario.uploaded) 1700000000000
            Scenario.unavailable HealthCache.initial)
  = HealthCache.lastHealthCheck
      (cacheAfter (checkHealth (Scenario.allWell Scenario.uploaded) 1700000000000
                     Scenario.unavailable HealthCache.initial)).
Proof.
  exact (proj1 (checkHealth_answer_is_cached (Scenario.allWell Scenario.uploaded)
                  1700000000000 Scenario.unavailable HealthCache.initial eq_refl)).
Defined.

(** Calls that all start inside the window of the cache are all answered
    from it. *)
Lemma checkHealthCalls_cached (env : Env.t) (cache : HealthCache.t) :
  truthy (Env.apiKey env) = true ->
  forall calls,
    Forall (fun call => fst call - HealthCache.lastHealthCheckTime cache < 60000)
           calls ->
    checkHealthCalls env calls cache
    = (repeat (HealthCache.lastHealthCheck cache) (List.length calls), cache, []).
Proof.
  intros key calls. induction calls as [|[now remote] calls IH]; intro H.
  - reflexivity.
  - inversion H as [|? ? Hnow Hrest]; subst. cbn [fst] in Hnow.
    cbn [checkHealthCalls].
    rewrite (checkHealth_cached env key now remote cache Hnow).
    unfold answer, cacheAfter. cbn [fst snd].
    rewrite (IH Hrest). reflexivity.
Qed.

(** X5. With a key configured, after a call that made a remote check and
    recorded its result, any number of further calls that start less than
    60 seconds after that call started make no request at all and all
    return the boolean that call returned. *)
Theorem checkHealth_window_of_calls
        (env : Env.t) (now : Z) (remote : FetchOutcome HfJson)
        (cache : HealthCache.t) (calls : list (Z * FetchOutcome HfJson)) :
  truthy (Env.apiKey env) = true ->
  remoteCalls (checkHealth env now remote cache) = 1%nat ->
  timeoutFallback remote cache = false ->
  Forall (fun call => fst call - now < 60000) calls ->
  checkHealthCalls env calls (cacheAfter (checkHealth env now remote cache))
  = (repeat (answer (checkHealth env now remote cache)) (List.length calls),
     cacheAfter (checkHealth env now remote cache),
     []).
Proof.
  intros key Hremote Hno Hcalls.
  rewrite (checkHealth_records env key now remote cache Hremote Hno).
  exact (checkHealthCalls_cached env
           {| HealthCache.lastHealthCheck := answer (checkHealth env now remote cache);
              HealthCache.lastHealthCheckTime := now |} key calls Hcalls).
Qed.

Lemma checkHealth_window_of_calls_witness :
  checkHealthCalls (Scenario.allWell Scenario.uploaded)
    [(1700000010000, Rejected abortError); (1700000059999, Scenario.unavailable)]
    (cacheAfter (checkHealth (Scenario.allWell Scenario.uploaded) 1700000000000
                   (Scenario.respond 200 "" Scenario.summaryBody)
                   HealthCache.initial))
  = ([true; true],
     cacheAfter (checkHealth (Scenario.allWell Scenario.uploaded) 1700000000000
                   (Scenario.respond 200 "" Scenario.summaryBody)
                   HealthCache.initial),
     []).
Proof.
  apply (checkHealth_window_of_calls (Scenario.allWell Scenario.uploaded)
           1700000000000 (Scenario.respond 200 "" Scenario.summaryBody)
           HealthCache.initial
           [(1700000010000, Rejected abortError);
            (1700000059999, Scenario.unavailable)]
           eq_refl eq_refl eq_refl).
  repeat constructor.
Defined.

(* ===================================================================== *)
(** ** More on the video service *)

Lemma whenTruthy_truthy f s : whenTruthy f = Some s -> truthy s = true /\ f = Some s.
Proof.
  unfold whenTruthy. destruct f as [x|]; [|discriminate].
  destruct (truthy x) eqn:E; [|discriminate].
  intro H. injection H as <-. split; [exact E|reflexivity].
Qed.

(** X6. [renderVideo] posts exactly one request, with a timeout of 120000
    ms, whatever the service does.  What it resolves to always has a
    non-empty [urlMp4], the one of the response body, and a subtitle URL
    that is either absent or non-empty; it resolves only for a response with
    an ok status, and a rejected request is rethrown as it is. *)
Theorem renderVideo_result (env : Env.t) (request : VideoRenderRequest.t) :
  snd (renderVideo env request) = [EvRenderRequest request 120000]
  /\ (forall result,
        fst (renderVideo env request) = Ok result ->
        VideoRenderResult.urlMp4 result <> []
        /\ (forall srt, VideoRenderResult.urlSrt result = Some srt -> srt <> [])
        /\ exists body,
             renderResponds env = Some body
             /\ RenderJson.urlMp4 body = Some (VideoRenderResult.urlMp4 result))
  /\ (forall e, Env.renderFetch env = Rejected e ->
                fst (renderVideo env request) = Throw e).
Proof.
  unfold renderVideo, renderResponds.
  destruct (Env.renderFetch env) as [e|r]; cbn.
  - split; [reflexivity|]. split; [intros result H; discriminate H|].
    intros e' H. injection H as <-. reflexivity.
  - split; [destruct (Response.ok r); cbn; [|reflexivity];
            destruct (Response.json r) as [j|e]; cbn; [|reflexivity];
            destruct (whenTruthy (RenderJson.urlMp4 j)); reflexivity|].
    split; [|intros e H; discriminate H].
    intros result.
    destruct (Response.ok r); cbn; [|intro H; discriminate H].
    destruct (Response.json r) as [j|e]; cbn; [|intro H; discriminate H].
    destruct (whenTruthy (RenderJson.urlMp4 j)) as [u|] eqn:Eu; cbn;
      [|intro H; discriminate H].
    apply whenTruthy_truthy in Eu. destruct Eu as [Tu Eu].
    intro H. injection H as <-. cbn.
    split; [intros ->; discriminate Tu|].
    split.
    + intros srt Hs. apply whenTruthy_truthy in Hs.
      destruct Hs as [Ts _]. intros ->. discriminate Ts.
    + exists j. split; [reflexivity|exact Eu].
Qed.



(* ===================================================================== *)
(** ** More on the orchestrator *)

Section Frame.

Lemma eqb_eq (a b : JsString) : Js.eqb a b = true -> a = b.
Proof.
  revert b. induction a as [|x a IH]; intros [|y b] H; try discriminate.
  - reflexivity.
  - cbn in H. apply andb_prop in H. destruct H as [Hxy Hab].
    apply Z.eqb_eq in Hxy. rewrite (IH b Hab), Hxy. reflexivity.
Qed.

Variables jobId other : JsString.
Hypothesis apart : Js.eqb jobId other = false.

Lemma getJobById_update_other status error progress s :
  Store.getJobById other (Store.updateJobStatus jobId status error progress s)
  = Store.getJobById other s.
Proof.
  unfold Store.getJobById, Store.updateJobStatus. cbn [Store.jobs].
  induction (Store.jobs s) as [|j l IH]; cbn [map find]; [reflexivity|].
  destruct (Js.eqb (Job.id j) jobId) eqn:E.
  - apply eqb_eq in E. cbn [Store.setStatus Job.id]. rewrite E, apart. exact IH.
  - destruct (Js.eqb (Job.id j) other); [reflexivity|exact IH].
Qed.

End Frame.

Lemma articlesOf_createArticle_other other a s :
  Js.eqb (Article.jobId a) other = false ->
  articlesOf other (Store.createArticle a s) = articlesOf other s.
Proof.
  intro H. unfold articlesOf, Store.createArticle. cbn [Store.articles].
  rewrite filter_app. cbn [filter]. rewrite H. apply app_nil_r.
Qed.
Lemma summariesOf_createSummary_other other x s :
  Js.eqb (Summary.jobId x) other = false ->
  summariesOf other (Store.createSummary x s) = summariesOf other s.
Proof.
  intro H. unfold summariesOf, Store.createSummary. cbn [Store.summaries].
  rewrite filter_app. cbn [filter]. rewrite H. apply app_nil_r.
Qed.
Lemma audiosOf_createAudio_other other a s :
  Js.eqb (Audio.jobId a) other = false ->
  audiosOf other (Store.createAudio a s) = audiosOf other s.
Proof.
  intro H. unfold audiosOf, Store.createAudio. cbn [Store.audios].
  rewrite filter_app. cbn [filter]. rewrite H. apply app_nil_r.
Qed.
Lemma videosOf_createVideo_other other v s :
  Js.eqb (Video.jobId v) other = false ->
  videosOf other (Store.createVideo v s) = videosOf other s.
Proof.
  intro H. unfold videosOf, Store.createVideo. cbn [Store.videos].
  rewrite filter_app. cbn [filter]. rewrite H. apply app_nil_r.
Qed.


Lemma uploads_app a b : uploads (a ++ b) = uploads a ++ uploads b.
Proof.
  induction a as [|e a IH]; simpl; [reflexivity|].
  destruct e; simpl; rewrite ?IH; reflexivity.
Qed.

Lemma uploads_summarizer log :
  forallb isSummarizerEvent log = true -> uploads log = [].
Proof.
  induction log as [|e log IH]; simpl; [reflexivity|].
  destruct e; simpl; intro H; try discriminate; apply IH; assumption.
Qed.

Lemma summarizer_not_tts e : isSummarizerEvent e = true -> isTtsRequest e = false.
Proof. destruct e; simpl; intro; congruence. Qed.

(** [summarize] makes at most five requests, key or no key. *)
Lemma summarize_at_most_five env text maxLength :
  (List.length (summarizerRequests (snd (summarize env text maxLength))) <= 5)%nat.
Proof.
  destruct (truthy (Env.apiKey env)) eqn:Hkey.
  - rewrite (summarize_loop env text maxLength Hkey).
    destruct (summarizeLoop_requests env text maxLength 5 1 None)
      as (k & Hk & _ & ->).
    rewrite length_map, length_seq. exact Hk.
  - rewrite (summarize_without_key env text maxLength Hkey). cbn. lia.
Qed.

Create Rewrite HintDb frame.
#[global] Hint Rewrite
  getJobById_update_other articlesOf_createArticle_other
  summariesOf_createSummary_other audiosOf_createAudio_other
  videosOf_createVideo_other
  using assumption : frame.

(** The summarizer is asked as before, and what is known of the length of
    its log is kept with what is known of its events. *)
Ltac ask_summarize e t m ::=
  let H := fresh "Hsum" in
  let B := fresh "Hfive" in
  pose proof (summarize_events e t m) as H;
  pose proof (summarize_at_most_five e t m) as B;
  first [ match goal with
          | K : summarize e t m = _ |- _ => rewrite K in H, B |- *
          end
        | destruct (summarize e t m) as [[?|?] ?] ];
  cbn [snd] in H, B.

Ltac log_facts :=
  repeat match goal with
         | H : forallb isSummarizerEvent ?l = true |- _ =>
             pose proof (storeWrites_summarizer l H);
             pose proof (uploads_summarizer l H);
             pose proof (count_summarizer isUpload l summarizer_not_upload H);
             pose proof (count_summarizer isFetchArticles l summarizer_not_fetch H);
             pose proof (count_summarizer isRenderRequest l summarizer_not_render H);
             pose proof (count_summarizer isTtsRequest l summarizer_not_tts H);
             clear H
         end;
  unfold count in *.

Lemma beforeUpload_app a b :
  uploads a = [] -> beforeUpload (a ++ b) = a ++ beforeUpload b.
Proof.
  induction a as [|e a IH]; cbn [app]; [reflexivity|].
  destruct e; cbn [uploads beforeUpload]; intro H;
    try discriminate H; rewrite (IH H); reflexivity.
Qed.

Lemma fromUpload_app a b :
  uploads a = [] -> fromUpload (a ++ b) = fromUpload b.
Proof.
  induction a as [|e a IH]; cbn [app]; [reflexivity|].
  destruct e; cbn [uploads fromUpload]; intro H;
    try discriminate H; exact (IH H).
Qed.

(** A log is what comes before its first upload, then the rest; there is
    no upload in the first part. *)
Lemma beforeUpload_fromUpload log :
  log = beforeUpload log ++ fromUpload log /\ uploads (beforeUpload log) = [].
Proof.
  induction log as [|e log [IH1 IH2]]; [split; reflexivity|].
  destruct e; cbn [beforeUpload fromUpload uploads app];
    try (split; [f_equal; exact IH1|exact IH2]).
  split; reflexivity.
Qed.

(** Reading a log whose appends are nested to the right. *)
Ltac read_log :=
  repeat first
    [ progress cbn [storeWrites uploads summarizerRequests filter app
                    beforeUpload fromUpload
                    isRenderRequest isUpload isFetchArticles isTtsRequest
                    Nat.add List.length]
    | rewrite storeWrites_app
    | rewrite uploads_app
    | rewrite summarizerRequests_app
    | rewrite filter_app
    | rewrite length_app
    | match goal with
      | H : uploads ?l = [] |- context [beforeUpload (?l ++ ?r)] =>
          rewrite (beforeUpload_app l r H)
      | H : uploads ?l = [] |- context [fromUpload (?l ++ ?r)] =>
          rewrite (fromUpload_app l r H)
      | H : storeWrites ?l = [] |- context [storeWrites ?l] => rewrite H
      | H : uploads ?l = [] |- context [uploads ?l] => rewrite H
      | H : List.length (filter ?f ?l) = 0%nat
        |- context [List.length (filter ?f ?l)] => rewrite H
      end ].

Ltac artifacts m :=
  exists m; cbn [Nat.leb firstn]; repeat split; first [reflexivity | lia].

Lemma run_invariant (env : Env.t) (jobId : JsString) (st : Store.t) :
  runInvariant env jobId st (run env jobId st).
Proof.
  pipeline.
  all: rewrite <- ?app_assoc; cbn [app].
  all: unfold runInvariant;
    cbn [fst snd traceOf storeOf World.trace World.store World.storeCalls];
    log_facts.
  all: split; [|split; [|split; [|split]]].
  all: try (intros other Hother; repeat split; autorewrite with store frame;
               reflexivity).
  all: try (intros ? Hthrow;
        first [ discriminate Hthrow
              | injection Hthrow as <-; eexists; split; [reflexivity|assumption] ]).
  all: read_log.
  all: try (repeat split; lia).
  all: try first [ left; reflexivity
              | right; do 6 eexists;
                split; [eassumption|]; split; [assumption|];
                split; [unfold pipelineWrites; reflexivity|];
                split; [reflexivity|];
                first [left; reflexivity | right; eexists; reflexivity] ].
  all: autorewrite with store; rewrite ?length_app;
        cbn [List.length];
        unfold reached, artifactOrder; cbn [artifactsWritten].
  all: first [ artifacts 0%nat | artifacts 1%nat | artifacts 2%nat
              | artifacts 3%nat | artifacts 4%nat ].
Qed.

(** X8. In every run the artifacts are created in the order Article,
    Summary, Audio, Video, each at most once and none without the ones
    before it: the job's rows in the four tables grow by one for the first
    [m] kinds and not at all for the others. *)
Theorem processJob_artifact_order (env : Env.t) (jobId : JsString) (st : Store.t) :
  exists m,
    (m <= 4)%nat
    /\ artifactsWritten (storeWrites (traceOf (run env jobId st)))
       = firstn m artifactOrder
    /\ List.length (articlesOf jobId (storeOf (run env jobId st)))
       = (List.length (articlesOf jobId st) + reached 1 m)%nat
    /\ List.length (summariesOf jobId (storeOf (run env jobId st)))
       = (List.length (summariesOf jobId st) + reached 2 m)%nat
    /\ List.length (audiosOf jobId (storeOf (run env jobId st)))
       = (List.length (audiosOf jobId st) + reached 3 m)%nat
    /\ List.length (videosOf jobId (storeOf (run env jobId st)))
       = (List.length (videosOf jobId st) + reached 4 m)%nat.
Proof. exact (proj1 (run_invariant env jobId st)). Qed.

(** X9. What one run costs at most: one call of the article source, five
    requests to the summarizer, one to the speech service, one to the
    render service, one upload, and eleven calls of the store. *)
Theorem processJob_call_budget (env : Env.t) (jobId : JsString) (st : Store.t) :
  (count isFetchArticles (traceOf (run env jobId st)) <= 1)%nat
  /\ (List.length (summarizerRequests (traceOf (run env jobId st))) <= 5)%nat
  /\ (count isTtsRequest (traceOf (run env jobId st)) <= 1)%nat
  /\ (count isRenderRequest (traceOf (run env jobId st)) <= 1)%nat
  /\ (count isUpload (traceOf (run env jobId st)) <= 1)%nat
  /\ (World.storeCalls (snd (run env jobId st)) <= 11)%nat.
Proof. exact (proj1 (proj2 (run_invariant env jobId st))). Qed.

(** X10. A run uploads nothing, or it uploads once: then the job asks for
    auto-publish, the upload comes after the nine writes of a completed
    pipeline and after nothing else written to the store, what is uploaded
    is the file of the Video just persisted, under the title made of the
    job's topic, and the only thing that can follow the upload is the write
    of [failed]. *)
Theorem processJob_upload_guard (env : Env.t) (jobId : JsString) (st : Store.t) :
  uploads (traceOf (run env jobId st)) = []
  \/ exists job article summary audio video before tail,
       Store.getJobById jobId st = Some job
       /\ Job.autoPublish job = true
       /\ traceOf (run env jobId st)
          = before
            ++ EvUpload (Video.urlMp4 video)
                        (Job.topic job ++ js " - AutoNews Summary") :: tail
       /\ uploads before = []
       /\ storeWrites before = pipelineWrites jobId article summary audio video
       /\ (tail = []
           \/ exists message,
                tail = [EvStore (WJobStatus jobId Failed (Some message) None)]).
Proof.
  destruct (proj1 (proj2 (proj2 (run_invariant env jobId st))))
    as [H | (job & article & summary & audio & video & tail
             & Hjob & Hauto & Hbefore & Hfrom & Htail)];
    [left; exact H|].
  right. exists job, article, summary, audio, video.
  exists (beforeUpload (traceOf (run env jobId st))), tail.
  destruct (beforeUpload_fromUpload (traceOf (run env jobId st))) as [Hsplit Hnone].
  rewrite Hfrom in Hsplit.
  repeat split; assumption.
Qed.

(** X11. [processJob] rejects only with what the store rejected its last
    call with: no error of a service leaves it, and with a store that
    accepts its calls every run returns. *)
Theorem processJob_rejects_with_store
        (env : Env.t) (jobId : JsString) (st : Store.t) (e : Thrown) :
  fst (run env jobId st) = Throw e ->
  (exists n, World.storeCalls (snd (run env jobId st)) = S n
             /\ Env.storeFault env n = Some e)
  /\ ~ storeReliable env.
Proof.
  intro H.
  destruct (proj1 (proj2 (proj2 (proj2 (run_invariant env jobId st)))) e H)
    as (n & Hcalls & Hfault).
  split; [exists n; split; assumption|].
  intro Hrel. rewrite (Hrel n) in Hfault. discriminate Hfault.
Qed.

Lemma processJob_rejects_with_store_witness :
  ~ storeReliable storeDown.
Proof.
  exact (proj2 (processJob_rejects_with_store storeDown Scenario.jobId
                  (Scenario.store false) (newError (js "connection refused"))
                  eq_refl)).
Defined.

(** X12. A run leaves the other jobs alone: the row of another job and its
    articles, summaries, audios and videos are after the run what they
    were before it. *)
Theorem processJob_frame
        (env : Env.t) (jobId other : JsString) (st : Store.t) :
  Js.eqb jobId other = false ->
  Store.getJobById other (storeOf (run env jobId st)) = Store.getJobById other st
  /\ articlesOf other (storeOf (run env jobId st)) = articlesOf other st
  /\ summariesOf other (storeOf (run env jobId st)) = summariesOf other st
  /\ audiosOf other (storeOf (run env jobId st)) = audiosOf other st
  /\ videosOf other (storeOf (run env jobId st)) = videosOf other st.
Proof.
  exact (proj2 (proj2 (proj2 (proj2 (run_invariant env jobId st)))) other).
Qed.

Lemma processJob_frame_witness :
  Js.eqb Scenario.jobId otherJobId = false
  /\ articlesOf Scenario.jobId
       (storeOf (run (Scenario.allWell Scenario.uploaded) Scenario.jobId twoJobs))
     <> articlesOf Scenario.jobId twoJobs
  /\ Store.getJobById otherJobId
       (storeOf (run (Scenario.allWell Scenario.uploaded) Scenario.jobId twoJobs))
     = Some otherJob
  /\ articlesOf otherJobId
       (storeOf (run (Scenario.allWell Scenario.uploaded) Scenario.jobId twoJobs))
     = [otherArticle].
Proof.
  split; [reflexivity|].
  split; [vm_compute; discriminate|].
  destruct (processJob_frame (Scenario.allWell Scenario.uploaded)
              Scenario.jobId otherJobId twoJobs eq_refl)
    as (Hjob & Harticles & _).
  split; [exact Hjob | exact Harticles].
Defined.

Lemma updateJobStatus_missing jobId status error progress s :
  Store.getJobById jobId s = None ->
  Store.updateJobStatus jobId status error progress s = s.
Proof.
  destruct s as [jobs articles summaries audios videos].
  unfold Store.getJobById, Store.updateJobStatus. cbn [Store.jobs Store.articles
    Store.summaries Store.audios Store.videos].
  intro H. f_equal.
  induction jobs as [|j jobs IH]; cbn [map find] in *; [reflexivity|].
  destruct (Js.eqb (Job.id j) jobId); [discriminate H|].
  rewrite (IH H). reflexivity.
Qed.

(** X13. With a store that accepts its calls, a run on a job that exists
    returns and leaves the job settled, never [running]: either
    [completed] with progress 100, no error and all four artifacts
    written, or [failed] with a message recorded and the progress of the
    stage the run had reached. *)
Theorem processJob_settles
        (env : Env.t) (jobId : JsString) (st : Store.t) (job : Job.t) :
  storeReliable env ->
  Store.getJobById jobId st = Some job ->
  fst (run env jobId st) = Ok tt
  /\ ((statusOf jobId (storeOf (run env jobId st)) = Some Completed
       /\ progressOf jobId (storeOf (run env jobId st)) = Some 100
       /\ errorOf jobId (storeOf (run env jobId st)) = Some None
       /\ artifactsWritten (storeWrites (traceOf (run env jobId st)))
          = artifactOrder)
      \/ (statusOf jobId (storeOf (run env jobId st)) = Some Failed
          /\ (exists message,
                errorOf jobId (storeOf (run env jobId st)) = Some (Some message))
          /\ exists p, progressOf jobId (storeOf (run env jobId st)) = Some p
                       /\ In p [10; 25; 50; 75; 100])).
Proof.
  intros Hrel Hjob.
  pipeline.
  all: summarizer_facts.
  all: split; [reflexivity|].
  all: observe.
  all: first [ left; repeat split; reflexivity
             | right; split; [reflexivity|]; split; [eexists; reflexivity|];
               eexists; split; [reflexivity|]; cbn [In]; auto 6 ].
Qed.

Lemma processJob_settles_witness :
  fst (run (Scenario.allWell Scenario.quotaExceeded) Scenario.jobId
           (Scenario.store true)) = Ok tt.
Proof.
  exact (proj1 (processJob_settles (Scenario.allWell Scenario.quotaExceeded)
                  Scenario.jobId (Scenario.store true) (Scenario.job true)
                  (fun n => eq_refl) eq_refl)).
Defined.

(** X14. A run on a job the store does not hold calls no service and
    leaves the store as it was; with a store that accepts its calls the run
    returns after two writes, [running] and then [failed] with the message
    "Job not found", neither of which finds a row. *)
Theorem processJob_missing_job (env : Env.t) (jobId : JsString) (st : Store.t) :
  Store.getJobById jobId st = None ->
  storeOf (run env jobId st) = st
  /\ forallb isStore (traceOf (run env jobId st)) = true
  /\ (storeReliable env ->
      fst (run env jobId st) = Ok tt
      /\ storeWrites (traceOf (run env jobId st))
         = [WJobStatus jobId Running None (Some 10);
            WJobStatus jobId Failed (Some (js "Job not found")) None]).
Proof.
  intro Hjob.
  pipeline.
  all: repeat rewrite (updateJobStatus_missing jobId _ _ _ st Hjob).
  all: split; [reflexivity|]; split; [reflexivity|].
  all: intro Hrel; try unreliable.
  all: split; reflexivity.
Qed.

Lemma processJob_missing_job_witness :
  storeOf (run (Scenario.allWell Scenario.uploaded) (js "job-2")
               (Scenario.store false))
  = Scenario.store false.
Proof.
  exact (proj1 (processJob_missing_job (Scenario.allWell Scenario.uploaded)
                  (js "job-2") (Scenario.store false) eq_refl)).
Defined.

(** X15. Of the articles the source returns only the first plays a part:
    two runs that differ in the articles after the first end with the same
    result, the same store and the same log. *)
Theorem processJob_first_article_only
        (apiKey : JsString) (first : GNewsArticle.t)
        (rest rest' : list GNewsArticle.t)
        (summarizerFetch : nat -> FetchOutcome HfJson)
        (ttsFetch : FetchOutcome TtsJson.t)
        (renderFetch : FetchOutcome RenderJson.t)
        (upload : Result JsString) (storeFault : nat -> option Thrown)
        (jobId : JsString) (st : Store.t) :
  run {| Env.apiKey := apiKey; Env.fetchArticles := Ok (first :: rest);
         Env.summarizerFetch := summarizerFetch; Env.ttsFetch := ttsFetch;
         Env.renderFetch := renderFetch; Env.uploadVideo := upload;
         Env.storeFault := storeFault |} jobId st
  = run {| Env.apiKey := apiKey; Env.fetchArticles := Ok (first :: rest');
           Env.summarizerFetch := summarizerFetch; Env.ttsFetch := ttsFetch;
           Env.renderFetch := renderFetch; Env.uploadVideo := upload;
           Env.storeFault := storeFault |} jobId st.
Proof.
  reflexivity.
Qed.
